(** * SwaggerConvert: the Swagger 1.2 to Swagger 2.0 descriptor mapper

    A shallow embedding of [src/SwaggerConvert.py].  Python values are the
    inductive [value]; a [dict] is an association list in insertion order
    with unique keys; an exception is the [Raise] branch of [result].  The
    network, [urlparse] and the Unicode-dependent builtins are the fields of
    an environment [Env] over which every function is parametrised. *)

From Stdlib Require Import Ascii String.
From stdpp Require Import base option list strings gmap pretty.

Open Scope string_scope.
Open Scope Z_scope.

Set Warnings "-register-all,-clear-no-such-hyp".

(** ** Python values *)

(** A hashable key of a [dict].  [True]/[1] and [False]/[0] are equal and
    hash alike in Python, so a [bool] key is kept as its number. *)
Inductive hkey : Type :=
| HNone
| HNum (n : Z)
| HStr (s : string).

Global Instance hkey_eq_dec : EqDecision hkey.
Proof. solve_decision. Defined.

Coercion HStr : string >-> hkey.

(** The values [response.json()] produces and the converter builds.  JSON
    numbers are the integers; documents with a fractional number are outside
    the model. *)
Inductive value : Type :=
| VNone
| VBool (b : bool)
| VInt (n : Z)
| VStr (s : string)
| VList (l : list value)
| VDict (d : list (hkey * value)).

Abbreviation dict := (list (hkey * value)).

(** ** Exceptions *)

Inductive exn : Type :=
| KeyError (k : hkey)
| TypeError
| AttributeError
| ValueError.

Inductive result (A : Type) : Type :=
| Ok (a : A)
| Raise (e : exn).
Arguments Ok {A} a.
Arguments Raise {A} e.

Global Instance result_ret : MRet result := @Ok.
Global Instance result_bind : MBind result := λ A B f m,
  match m with
  | Ok a => f a
  | Raise e => Raise e
  end.

(** A loop whose body may raise: [for x in l: st = body(st, x)]. *)
Fixpoint for_each {S A : Type} (body : S → A → result S) (l : list A) (st : S)
  : result S :=
  match l with
  | [] => Ok st
  | x :: l' => st' ← body st x; for_each body l' st'
  end.

(** ** Dictionaries *)

Module Dict.
Section ops.
Context {A : Type}.
Implicit Types (d : list (hkey * A)) (k : hkey).

(** [d[k]], [None] standing for the [KeyError]. *)
Fixpoint get d k : option A :=
  match d with
  | [] => None
  | (k', v) :: d' => if decide (k = k') then Some v else get d' k
  end.

(** [d[k] = v]: an existing key keeps its place, a new one goes last. *)
Fixpoint set d k (v : A) : list (hkey * A) :=
  match d with
  | [] => [(k, v)]
  | (k', v') :: d' =>
      if decide (k = k') then (k', v) :: d' else (k', v') :: set d' k v
  end.

(** [del d[k]] for a key that is present. *)
Fixpoint del d k : list (hkey * A) :=
  match d with
  | [] => []
  | (k', v) :: d' => if decide (k = k') then d' else (k', v) :: del d' k
  end.

(** [k in d] *)
Definition mem d k : bool := bool_decide (is_Some (get d k)).

(** [d.get(k, default)] *)
Definition get_default d k (dflt : A) : A := default dflt (get d k).

Definition keys d : list hkey := d.*1.
Definition values d : list A := d.*2.
End ops.
End Dict.

(** A dictionary as Python holds it: no key occurs twice. *)
Definition dict_wf {A : Type} (d : list (hkey * A)) : Prop := NoDup (Dict.keys d).

(** ** Builtins on values *)

(** [bool(v)] *)
Definition truthy (v : value) : bool :=
  match v with
  | VNone => false
  | VBool b => b
  | VInt n => negb (n =? 0)
  | VStr s => negb (String.eqb s "")
  | VList l => match l with [] => false | _ => true end
  | VDict d => match d with [] => false | _ => true end
  end.

(** The key a dictionary yields when it is iterated. *)
Definition key_value (k : hkey) : value :=
  match k with
  | HNone => VNone
  | HNum n => VInt n
  | HStr s => VStr s
  end.

(** [hash(v)]: lists and dicts are unhashable. *)
Definition hashable (v : value) : result hkey :=
  match v with
  | VNone => Ok HNone
  | VBool b => Ok (HNum (Z.b2z b))
  | VInt n => Ok (HNum n)
  | VStr s => Ok (HStr s)
  | VList _ | VDict _ => Raise TypeError
  end.

(** [v[k]] with a string key needs a dictionary: a list or a string wants an
    integer index, the other values are not subscriptable. *)
Definition subscriptable (v : value) : result dict :=
  match v with
  | VDict d => Ok d
  | _ => Raise TypeError
  end.

Definition subscript (d : dict) (k : string) : result value :=
  match Dict.get d (HStr k) with
  | Some v => Ok v
  | None => Raise (KeyError (HStr k))
  end.

(** [v[k]] *)
Definition getitem (v : value) (k : string) : result value :=
  d ← subscriptable v; subscript d k.

(** The receiver of [.get] or [.items]: only a dictionary has them. *)
Definition dict_attr (v : value) : result dict :=
  match v with
  | VDict d => Ok d
  | _ => Raise AttributeError
  end.

(** The receiver of [.split] or [.lower]: only a string has them. *)
Definition str_attr (v : value) : result string :=
  match v with
  | VStr s => Ok s
  | _ => Raise AttributeError
  end.

(** The characters of a string, one string each.  A [string] here is a
    sequence of bytes, so a character outside ASCII counts once per byte of
    its encoding; every loop of the converter subscripts what it visits with
    a string key and so raises on the first character either way. *)
Fixpoint chars (s : string) : list value :=
  match s with
  | EmptyString => []
  | String c s' => VStr (String c EmptyString) :: chars s'
  end.

(** [iter(v)]: what a [for] loop over [v] visits. *)
Definition py_iter (v : value) : result (list value) :=
  match v with
  | VList l => Ok l
  | VDict d => Ok (key_value <$> Dict.keys d)
  | VStr s => Ok (chars s)
  | VNone | VBool _ | VInt _ => Raise TypeError
  end.

(** ** Builtins on strings *)

Definition slash : ascii := "/"%char.

(** [s.endswith(suffix)] *)
Definition endswith (s suffix : string) : bool :=
  let n := String.length s in
  let m := String.length suffix in
  (m <=? n)%nat && String.eqb (substring (n - m) m s) suffix.

(** [s.rstrip('/')] *)
Fixpoint rstrip_slash (s : string) : string :=
  match s with
  | EmptyString => EmptyString
  | String c s' =>
      match rstrip_slash s' with
      | EmptyString => if Ascii.eqb c slash then EmptyString else String c EmptyString
      | r => String c r
      end
  end.

(** [s.split("/")[-1]], the part after the last slash; [seg] is the segment
    read so far, most recent character first. *)
Fixpoint last_segment_from (seg : string) (s : string) : string :=
  match s with
  | EmptyString => String.rev seg
  | String c s' =>
      if Ascii.eqb c slash then last_segment_from EmptyString s'
      else last_segment_from (String c seg) s'
  end.

Definition last_segment (s : string) : string := last_segment_from EmptyString s.

(** [s.replace(old, "")] for a non-empty [old]: the occurrences of [old] are
    found left to right without overlap and dropped; [skip] counts the
    characters of the current occurrence still to drop. *)
Fixpoint remove_from (old : string) (skip : nat) (s : string) : string :=
  match s with
  | EmptyString => EmptyString
  | String c s' =>
      match skip with
      | S k => remove_from old k s'
      | O =>
          if String.prefix old s then remove_from old (String.length old - 1) s'
          else String c (remove_from old O s')
      end
  end.

Definition replace_with_empty (old s : string) : string := remove_from old O s.

(** ** The environment of a run *)

(** What the converter reads of [urlparse(url)]. *)
Record parse_result : Type := ParseResult {
  url_scheme : string;
  url_netloc : string;
  url_path : string
}.

(** The network answers a URL the same way throughout a run. *)
Record Env : Type := {
  (** [requests.get(url)] followed by [raise_for_status()] and [.json()]:
      the parsed body, or [None] when a [requests.RequestException] is
      raised (connection error, HTTP error status, and, as [requests] has
      it since 2.27, a body that is not JSON). *)
  http_get : string → option value;
  (** [urllib.parse.urlparse]; it raises [ValueError] on a malformed
      bracketed host. *)
  urlparse : string → result parse_result;
  (** [str.lower], which depends on the Unicode character tables. *)
  str_lower : string → string;
  (** [str(v)] for a list or a dictionary [v], which is its [repr]. *)
  container_str : value → string
}.

(** The dictionary of lines 63-66, a tag entry. *)
Definition tag_entry (name : string) (description : value) : value :=
  VDict [ (HStr "name", VStr name); (HStr "description", description) ].

(** The dictionary of line 99, the [$ref] schema of a response model. *)
Definition schema_ref (name : string) : value :=
  VDict [ (HStr "$ref", VStr ("#/definitions/" ++ name)) ].

Section converter.
Context (env : Env).

(** [str(v)], also what an f-string writes for [{v}]. *)
Definition py_str (v : value) : string :=
  match v with
  | VNone => "None"
  | VBool true => "True"
  | VBool false => "False"
  | VInt n => pretty n
  | VStr s => s
  | VList _ | VDict _ => container_str env v
  end.

(** [fetch_api_details], lines 6-18. *)
Definition fetch_api_details (base_url path : string) : value :=
  let full_url := base_url ++ path in
  match http_get env full_url with
  | Some body => body
  | None => VDict []
  end.

(** *** Parameters, lines 81-91 *)
Definition convert_param (param : value) : result value :=
  d ← subscriptable param;
  name ← subscript d "name";
  param_type ← subscript d "paramType";
  let description := Dict.get_default d "description" (VStr "") in
  required ← subscript d "required";
  type ← str_attr (Dict.get_default d "type" (VStr "string"));
  let param_spec : dict :=
    [ (HStr "name", name);
      (HStr "in", param_type);
      (HStr "description", description);
      (HStr "required", required);
      (HStr "type", VStr (str_lower env type)) ] in
  if Dict.mem d "format" then
    format ← subscript d "format";
    Ok (VDict (Dict.set param_spec "format" format))
  else Ok (VDict param_spec).

(** *** Response messages, lines 95-100: the key and the response object *)
Definition convert_response (resp : value) : result (string * value) :=
  d ← subscriptable resp;
  code ← subscript d "code";
  message ← subscript d "message";
  response_model ← subscript d "responseModel";
  Ok (py_str code,
      VDict
        [ (HStr "description",
           if truthy message then message else VStr "No description");
          (HStr "schema",
           if truthy response_model then schema_ref (py_str response_model)
           else VNone) ]).

Definition add_response (responses : dict) (resp : value) : result dict :=
  '(code, response) ← convert_response resp;
  Ok (Dict.set responses (HStr code) response).

(** *** One operation, lines 77-111: the method and the operation object *)

(** The dictionary of lines 103-111. *)
Definition operation_object (tag_name : string) (summary notes : value)
    (parameters : list value) (responses : dict) (consumes produces : value)
  : dict :=
  [ (HStr "tags", VList [VStr tag_name]);
    (HStr "summary", summary);
    (HStr "description", notes);
    (HStr "parameters", VList parameters);
    (HStr "responses", VDict responses);
    (HStr "consumes", consumes);
    (HStr "produces", produces) ].

Definition convert_operation (tag_name : string) (operation : value)
  : result (string * dict) :=
  d ← subscriptable operation;
  method ← subscript d "method" ≫= str_attr;
  let method := str_lower env method in
  params ← py_iter (Dict.get_default d "parameters" (VList []));
  parameters ← mapM convert_param params;
  resps ← py_iter (Dict.get_default d "responseMessages" (VList []));
  responses ← for_each add_response resps [];
  summary ← subscript d "summary";
  notes ← subscript d "notes";
  consumes ← subscript d "consumes";
  produces ← subscript d "produces";
  Ok (method,
      operation_object tag_name summary notes parameters responses
        consumes produces).

(** *** The [paths] mapping: URL template, then method, then operation *)
Definition paths_t : Type := list (hkey * list (hkey * dict)).

(** Lines 114-116: [paths[path][method] = operation_obj], the inner
    dictionary created on first use. *)
Definition add_operation (paths : paths_t) (path : hkey) (method : string)
    (operation_obj : dict) : paths_t :=
  let paths :=
    if Dict.mem paths path then paths else Dict.set paths path [] in
  Dict.set paths path
    (Dict.set (Dict.get_default paths path []) (HStr method) operation_obj).

(** What one operation writes: the key of the URL template (line 114
    hashes it), the method and the operation object. *)
Definition contribution (tag_name : string) (path : value)
    (operation : value) : result (hkey * string * dict) :=
  '(method, operation_obj) ← convert_operation tag_name operation;
  key ← hashable path;
  Ok (key, method, operation_obj).

Definition write (paths : paths_t) (c : hkey * string * dict) : paths_t :=
  add_operation paths c.1.1 c.1.2 c.2.

Definition process_operation (tag_name : string) (path : value)
    (paths : paths_t) (operation : value) : result paths_t :=
  c ← contribution tag_name path operation;
  Ok (write paths c).

(** Lines 75-116 for one endpoint of a declaration. *)
Definition process_endpoint (tag_name : string) (paths : paths_t)
    (endpoint : value) : result paths_t :=
  d ← subscriptable endpoint;
  path ← subscript d "path";
  operations ← subscript d "operations" ≫= py_iter;
  for_each (process_operation tag_name path) operations paths.

(** *** The loop over the API references, lines 58-116 *)
Record state : Type := State {
  tags : list value;
  seen_tags : gset string;
  paths : paths_t
}.

(** Lines 62-67. *)
Definition add_tag (st : state) (tag_name : string) (api_entry : dict)
  : result state :=
  if decide (tag_name ∈ seen_tags st) then Ok st
  else
    description ← subscript api_entry "description";
    Ok {| tags := (tags st ++ [tag_entry tag_name description])%list;
          seen_tags := seen_tags st ∪ {[ tag_name ]};
          paths := paths st |}.

(** Line 61. *)
Definition tag_name_of (path : string) : string :=
  replace_with_empty "-controller" (last_segment path).

(** Line 74: [api_details.get("apis", [])] as the loop visits it. *)
Definition declaration_endpoints (api_details : value) : result (list value) :=
  details ← dict_attr api_details;
  py_iter (Dict.get_default details "apis" (VList [])).

Definition process_api_entry (base_url : string) (st : state)
    (api_entry : value) : result state :=
  d ← subscriptable api_entry;
  path ← subscript d "path" ≫= str_attr;
  let tag_name := tag_name_of path in
  st ← add_tag st tag_name d;
  let api_details := fetch_api_details base_url path in
  endpoints ← declaration_endpoints api_details;
  paths' ← for_each (process_endpoint tag_name) endpoints (paths st);
  Ok {| tags := tags st; seen_tags := seen_tags st; paths := paths' |}.

(** *** Model definitions, lines 119-138 *)

(** One property: its schema and whether it is flagged required. *)
Definition convert_property (prop_def : value) : result (dict * bool) :=
  d ← subscriptable prop_def;
  type ← subscript d "type" ≫= str_attr;
  let prop_spec : dict :=
    [ (HStr "type", VStr (str_lower env type));
      (HStr "description", Dict.get_default d "description" (VStr "")) ] in
  prop_spec ←
    (if truthy (Dict.get_default d "format" VNone) then
       format ← subscript d "format";
       Ok (Dict.set prop_spec "format" format)
     else Ok prop_spec);
  Ok (prop_spec, truthy (Dict.get_default d "required" (VBool false))).

Definition add_property (acc : dict * list value) (item : hkey * value)
  : result (dict * list value) :=
  let '(properties, required) := acc in
  let '(prop_name, prop_def) := item in
  '(prop_spec, is_required) ← convert_property prop_def;
  let required :=
    if (is_required : bool) then (required ++ [key_value prop_name])%list
    else required in
  Ok (Dict.set properties prop_name (VDict prop_spec), required).

Definition convert_model (model_def : value) : result value :=
  d ← subscriptable model_def;
  props ← subscript d "properties" ≫= dict_attr;
  '(properties, required) ← for_each add_property props ([], []);
  Ok (VDict
        [ (HStr "type", VStr "object");
          (HStr "properties", VDict properties);
          (HStr "required",
           if truthy (VList required) then VList required else VNone);
          (HStr "description", Dict.get_default d "description" (VStr "")) ]).

Definition add_definition (definitions : dict) (item : hkey * value)
  : result dict :=
  let '(model_name, model_def) := item in
  definition ← convert_model model_def;
  Ok (Dict.set definitions model_name definition).

(** *** The clean-up pass, lines 141-146 *)
Definition cleanup_operation (method : dict) : result dict :=
  responses ← subscript method "responses";
  let method :=
    if truthy responses then method else Dict.del method "responses" in
  parameters ← subscript method "parameters";
  Ok (if truthy parameters then method else Dict.del method "parameters").

(** A loop over [d.values()] that updates each value in place. *)
Fixpoint for_values {A : Type} (f : A → result A) (d : list (hkey * A))
  : result (list (hkey * A)) :=
  match d with
  | [] => Ok []
  | (k, v) :: d' => v' ← f v; d'' ← for_values f d'; Ok ((k, v') :: d'')
  end.

Definition cleanup (paths : paths_t) : result paths_t :=
  for_values (for_values cleanup_operation) paths.

(** The [paths] mapping as a value. *)
Definition paths_value (paths : paths_t) : value :=
  VDict (prod_map id (λ methods, VDict (prod_map id VDict <$> methods)) <$> paths).

(** *** [convert_swagger_12_to_20], lines 20-148 *)
Definition init_state : state :=
  {| tags := []; seen_tags := ∅; paths := [] |}.

Definition base_url_of (parsed_url : parse_result) : string :=
  url_scheme parsed_url ++ "://" ++ url_netloc parsed_url ++
  rstrip_slash (url_path parsed_url) ++ "/".

(** [swagger_20["info"]] is the very dictionary [input_data["info"]], so
    line 55 also changes the listing; the listing's [info] is not read
    again, and the model keeps the updated copy only. *)
Definition convert_swagger_12_to_20 (api_docs_url : string) : result value :=
  if negb (endswith api_docs_url "api-docs") then Ok (VDict [])
  else
    parsed_url ← urlparse env api_docs_url;
    let host := url_netloc parsed_url in
    let base_path := rstrip_slash (url_path parsed_url) in
    let base_url := base_url_of parsed_url in
    match http_get env api_docs_url with
    | None => Ok (VDict [])
    | Some input_data =>
        root ← subscriptable input_data;
        info ← subscript root "info";
        let version := Dict.get_default root "apiVersion" (VStr "1.0") in
        info ← subscriptable info;
        let info := Dict.set info "version" version in
        api_entries ← subscript root "apis" ≫= py_iter;
        st ← for_each (process_api_entry base_url) api_entries init_state;
        models ← dict_attr (Dict.get_default root "models" (VDict []));
        definitions ← for_each add_definition models [];
        paths ← cleanup (paths st);
        Ok (VDict
              [ (HStr "swagger", VStr "2.0");
                (HStr "info", VDict info);
                (HStr "host", VStr host);
                (HStr "basePath", VStr base_path);
                (HStr "schemes", VList [VStr (url_scheme parsed_url)]);
                (HStr "paths", paths_value paths);
                (HStr "definitions", VDict definitions);
                (HStr "tags", VList (tags st)) ])
    end.

(** *** The writes of a run

    The loops of lines 59-116 touch [paths] only through line 116; these
    functions list what is written there, in the order it is written. *)
Definition endpoint_writes (tag_name : string) (endpoint : value)
  : result (list (hkey * string * dict)) :=
  d ← subscriptable endpoint;
  path ← subscript d "path";
  operations ← subscript d "operations" ≫= py_iter;
  mapM (contribution tag_name path) operations.

Definition entry_writes (base_url : string) (api_entry : value)
  : result (list (hkey * string * dict)) :=
  d ← subscriptable api_entry;
  path ← subscript d "path" ≫= str_attr;
  endpoints ← declaration_endpoints (fetch_api_details base_url path);
  writes ← mapM (endpoint_writes (tag_name_of path)) endpoints;
  Ok (concat writes).

Definition run_writes (base_url : string) (api_entries : list value)
  : result (list (hkey * string * dict)) :=
  writes ← mapM (entry_writes base_url) api_entries;
  Ok (concat writes).

(** [operation] is an operation of the endpoint [url_template] of the
    declaration fetched for one of the references [api_entries], whose
    tag name is [tag_name]. *)
Definition source_operation (base_url : string) (api_entries : list value)
    (tag_name : string) (url_template operation : value) : Prop :=
  ∃ (d : dict) (path : string) (endpoints : list value) (ed : dict)
    (operations : list value),
    VDict d ∈ api_entries ∧
    Dict.get d "path" = Some (VStr path) ∧
    tag_name = tag_name_of path ∧
    declaration_endpoints (fetch_api_details base_url path) = Ok endpoints ∧
    VDict ed ∈ endpoints ∧
    Dict.get ed "path" = Some url_template ∧
    subscript ed "operations" ≫= py_iter = Ok operations ∧
    operation ∈ operations.

(** [resp] is a response message of such an operation. *)
Definition source_response (base_url : string) (api_entries : list value)
    (resp : value) : Prop :=
  ∃ (tag_name : string) (url_template : value) (od : dict)
    (resps : list value),
    source_operation base_url api_entries tag_name url_template (VDict od) ∧
    py_iter (Dict.get_default od "responseMessages" (VList [])) = Ok resps ∧
    resp ∈ resps.

(** The tag name and the fields of an API reference, as lines 59-61 read
    them. *)
Definition api_reference (api_entry : value) : result (string * dict) :=
  d ← subscriptable api_entry;
  path ← subscript d "path" ≫= str_attr;
  Ok (tag_name_of path, d).
End converter.

(** ** Observations on documents *)

(** The API references of a resource listing, as line 59 visits them. *)
Definition api_entries_of (input_data : value) : result (list value) :=
  getitem input_data "apis" ≫= py_iter.

(** [v[k1][k2]...], [None] when a key is missing on the way. *)
Fixpoint at_keys (v : value) (ks : list hkey) : option value :=
  match ks with
  | [] => Some v
  | k :: ks' =>
      match v with
      | VDict d => Dict.get d k ≫= λ v', at_keys v' ks'
      | _ => None
      end
  end.

(** [paths[path][method]] *)
Definition get2 {A : Type} (paths : list (hkey * list (hkey * A)))
    (path method : hkey) : option A :=
  Dict.get paths path ≫= λ methods, Dict.get methods method.

(** The operation object of the last write to [(path, method)]. *)
Fixpoint last_write (writes : list (hkey * string * dict)) (path method : hkey)
  : option dict :=
  match writes with
  | [] => None
  | (p, m, operation_obj) :: writes' =>
      match last_write writes' path method with
      | Some later => Some later
      | None =>
          if decide (path = p ∧ method = HStr m) then Some operation_obj
          else None
      end
  end.

(** The references that introduce a tag name: those whose name no earlier
    reference has, [seen] holding the names met so far. *)
Fixpoint first_seen {A : Type} (seen : gset string) (refs : list (string * A))
  : list (string * A) :=
  match refs with
  | [] => []
  | (name, a) :: refs' =>
      if decide (name ∈ seen) then first_seen seen refs'
      else (name, a) :: first_seen (seen ∪ {[ name ]}) refs'
  end.

(** How a reference shows in the [tags] list. *)
Definition tag_of (t : value) (r : string * dict) : Prop :=
  ∃ description,
    Dict.get r.2 "description" = Some description ∧
    t = tag_entry r.1 description.

(** The tag name as the specification words it: the final path segment
    with a trailing ["-controller"] stripped. *)
Definition strip_suffix (suffix s : string) : string :=
  if endswith s suffix
  then substring 0 (String.length s - String.length suffix) s
  else s.

Definition spec_tag_name (path : string) : string :=
  strip_suffix "-controller" (last_segment path).

(** Whether a property definition carries a truthy [required] flag. *)
Definition is_required (prop_def : value) : bool :=
  match prop_def with
  | VDict d => truthy (Dict.get_default d "required" (VBool false))
  | _ => false
  end.

(** The names of the required properties, in the order of the source. *)
Definition required_names (props : dict) : list value :=
  key_value <$> (filter (λ item, is_required item.2) props).*1.

(** ** A concrete environment

    The builtins on ASCII text and a table of canned HTTP responses, to run
    the converter on explicit documents. *)

Module Concrete.

Definition is_upper (c : ascii) : bool :=
  let n := nat_of_ascii c in (65 <=? n)%nat && (n <=? 90)%nat.

Definition is_lower (c : ascii) : bool :=
  let n := nat_of_ascii c in (97 <=? n)%nat && (n <=? 122)%nat.

Definition is_digit (c : ascii) : bool :=
  let n := nat_of_ascii c in (48 <=? n)%nat && (n <=? 57)%nat.

Definition lower_char (c : ascii) : ascii :=
  if is_upper c then ascii_of_nat (nat_of_ascii c + 32) else c.

(** [str.lower] on ASCII text. *)
Fixpoint lower (s : string) : string :=
  match s with
  | EmptyString => EmptyString
  | String c s' => String (lower_char c) (lower s')
  end.

(** The longest prefix free of [stop] characters, and the rest. *)
Fixpoint span_until (stop : ascii → bool) (s : string) : string * string :=
  match s with
  | EmptyString => (EmptyString, EmptyString)
  | String c s' =>
      if stop c then (EmptyString, s)
      else let '(a, b) := span_until stop s' in (String c a, b)
  end.

Fixpoint all_chars (p : ascii → bool) (s : string) : bool :=
  match s with
  | EmptyString => true
  | String c s' => p c && all_chars p s'
  end.

Definition is_char (x : ascii) (c : ascii) : bool := Ascii.eqb c x.

Definition scheme_char (c : ascii) : bool :=
  is_upper c || is_lower c || is_digit c
  || is_char "+" c || is_char "-" c || is_char "." c.

Fixpoint has_char (x : ascii) (s : string) : bool :=
  match s with
  | EmptyString => false
  | String c s' => is_char x c || has_char x s'
  end.

(** The path without the [;params] of its last segment. *)
Fixpoint drop_params (s : string) : string :=
  match s with
  | EmptyString => EmptyString
  | String c s' =>
      if is_char ";" c && negb (has_char "/" s') then EmptyString
      else String c (drop_params s')
  end.

Definition uses_params : list string :=
  [ ""; "ftp"; "hdl"; "prospero"; "http"; "imap"; "https"; "shttp"; "rtsp";
    "rtspu"; "sip"; "sips"; "mms"; "sftp"; "tel" ].

(** [urlparse] on a URL of the generic form
    [scheme://netloc/path;params?query#fragment]: the scheme is the text
    before the first colon when it starts with a letter and holds scheme
    characters only, the netloc follows [//] up to the next [/], [?] or
    [#], the path ends at the first [?] or [#] and, for the schemes that
    take parameters, loses the [;params] of its last segment.  Bracketed
    hosts are not validated, so [ValueError] is never raised. *)
Definition parse_url (url : string) : result parse_result :=
  let '(scheme, url) :=
    match span_until (is_char ":") url with
    | (String c _ as s, String _ rest) =>
        if (is_upper c || is_lower c) && all_chars scheme_char s
        then (lower s, rest) else (EmptyString, url)
    | _ => (EmptyString, url)
    end in
  let '(netloc, url) :=
    match url with
    | String "/" (String "/" rest) =>
        span_until (λ c, is_char "/" c || is_char "?" c || is_char "#" c) rest
    | _ => (EmptyString, url)
    end in
  let '(path, _) := span_until (λ c, is_char "?" c || is_char "#" c) url in
  let path :=
    if existsb (String.eqb scheme) uses_params then drop_params path
    else path in
  Ok {| url_scheme := scheme; url_netloc := netloc; url_path := path |}.

Definition join (sep : string) (l : list string) : string :=
  match l with
  | [] => EmptyString
  | x :: l' => x ++ fold_right (λ y acc, sep ++ y ++ acc) EmptyString l'
  end.

Definition key_repr (k : hkey) : string :=
  match k with
  | HNone => "None"
  | HNum n => pretty n
  | HStr s => "'" ++ s ++ "'"
  end.

(** [repr(v)]; a string is written between single quotes as it is, which
    is Python's output when it holds no quote, backslash or control
    character. *)
Fixpoint repr (v : value) : string :=
  match v with
  | VNone => "None"
  | VBool true => "True"
  | VBool false => "False"
  | VInt n => pretty n
  | VStr s => "'" ++ s ++ "'"
  | VList l => "[" ++ join ", " (map repr l) ++ "]"
  | VDict d =>
      "{" ++ join ", " (map (λ kv, key_repr kv.1 ++ ": " ++ repr kv.2) d) ++ "}"
  end.

(** The network as a table from URL to parsed body; a URL that is not
    listed fails to resolve. *)
Definition table_get (table : list (string * value)) (url : string)
  : option value :=
  snd <$> List.find (λ entry, String.eqb (fst entry) url) table.

Definition env (table : list (string * value)) : Env :=
  {| http_get := table_get table;
     urlparse := parse_url;
     str_lower := lower;
     container_str := repr |}.

(** Document builders. *)
Definition obj (fields : list (string * value)) : value :=
  VDict (prod_map HStr id <$> fields).

End Concrete.

(** ** Example documents *)

Module Scenario.
Import Concrete.

Definition origin : string := "http://host/v1/api-docs".

Definition reference (path description : string) : value :=
  obj [ ("path", VStr path); ("description", VStr description) ].

Definition listing (apis : list value) : value :=
  obj [ ("apiVersion", VStr "1.0.0");
        ("info", obj [ ("title", VStr "Pet store") ]);
        ("apis", VList apis) ].

(** An operation with the fields the converter requires, then [extra]. *)
Definition operation (method summary : string)
    (extra : list (string * value)) : value :=
  obj ([ ("method", VStr method);
         ("summary", VStr summary);
         ("notes", VStr "");
         ("consumes", VList []);
         ("produces", VList [VStr "application/json"]) ] ++ extra).

Definition declaration (endpoints : list (string * list value)) : value :=
  obj [ ("apis",
         VList (map (λ ep, obj [ ("path", VStr ep.1);
                                 ("operations", VList ep.2) ])
                  endpoints)) ].

(** Scenario A of the specification: one reference, one endpoint, one GET
    operation, no parameters, responses or models. *)
Definition pets : list (string * value) :=
  [ (origin, listing [ reference "/pet-controller" "Pets" ]);
    ("http://host/v1/api-docs//pet-controller",
     declaration [ ("/pet", [ operation "GET" "List pets" [] ]) ]) ].

(** One operation with a parameter and three response messages: a named
    model, an empty model name and message, a null model and message. *)
Definition answers : list (string * value) :=
  [ (origin, listing [ reference "/pet-controller" "Pets" ]);
    ("http://host/v1/api-docs//pet-controller",
     declaration
       [ ("/pet/{id}",
          [ operation "GET" "Find a pet"
              [ ("parameters",
                 VList [ obj [ ("name", VStr "id");
                               ("paramType", VStr "path");
                               ("required", VBool true);
                               ("type", VStr "Integer") ] ]);
                ("responseMessages",
                 VList [ obj [ ("code", VInt 200);
                               ("message", VStr "OK");
                               ("responseModel", VStr "Pet") ];
                         obj [ ("code", VInt 404);
                               ("message", VStr "");
                               ("responseModel", VStr "") ];
                         obj [ ("code", VInt 500);
                               ("message", VNone);
                               ("responseModel", VNone) ] ]) ] ]) ]) ].

(** A response message without its [message] key. *)
Definition no_message : list (string * value) :=
  [ (origin, listing [ reference "/pet-controller" "Pets" ]);
    ("http://host/v1/api-docs//pet-controller",
     declaration
       [ ("/pet",
          [ operation "GET" "List pets"
              [ ("responseMessages",
                 VList [ obj [ ("code", VInt 200);
                               ("responseModel", VStr "Pet") ] ]) ] ]) ]) ].

(** Two models: one with a required property, one with none. *)
Definition models : list (string * value) :=
  [ (origin,
     obj [ ("info", obj [ ("title", VStr "Pet store") ]);
           ("apis", VList []);
           ("models",
            obj [ ("Pet",
                   obj [ ("properties",
                          obj [ ("id", obj [ ("type", VStr "Integer");
                                             ("required", VBool true) ]);
                                ("name", obj [ ("type", VStr "string") ]) ]) ]);
                  ("Tag",
                   obj [ ("properties",
                          obj [ ("label", obj [ ("type", VStr "string") ]) ]) ])
                ]) ]) ].

(** Four references, none of whose declarations resolves; the third
    repeats the tag name of the first, the fourth has ["-controller"]
    inside its last segment. *)
Definition references : list (string * value) :=
  [ (origin,
     listing [ reference "/pet-controller" "Pets";
               reference "/store-controller" "Store";
               reference "/v2/pet-controller" "Pets again";
               reference "/pet-controller-v2" "Newer pets" ]) ].

(** Two controllers that both declare [GET /pet]. *)
Definition clash : list (string * value) :=
  [ (origin, listing [ reference "/pet-controller" "Pets";
                       reference "/admin-controller" "Admin" ]);
    ("http://host/v1/api-docs//pet-controller",
     declaration [ ("/pet", [ operation "GET" "first" [] ]) ]);
    ("http://host/v1/api-docs//admin-controller",
     declaration [ ("/pet", [ operation "get" "second" [] ]) ]) ].

(** Three references; the declaration of the second does not resolve. *)
Definition outage : list (string * value) :=
  [ (origin, listing [ reference "/pet-controller" "Pets";
                       reference "/store-controller" "Store";
                       reference "/user-controller" "Users" ]);
    ("http://host/v1/api-docs//pet-controller",
     declaration [ ("/pet", [ operation "GET" "List pets" [] ]) ]);
    ("http://host/v1/api-docs//user-controller",
     declaration [ ("/user", [ operation "POST" "Add a user" [] ]) ]) ].

(** Resource listings without [info], and without [apis]. *)
Definition no_info : list (string * value) :=
  [ (origin, obj [ ("apis", VList []) ]) ].

Definition no_apis : list (string * value) :=
  [ (origin, obj [ ("info", obj [ ("title", VStr "Pet store") ]) ]) ].

Definition run (table : list (string * value)) : result value :=
  convert_swagger_12_to_20 (env table) origin.

(** The resource listing of a table, and the document its run returns. *)
Definition input (table : list (string * value)) : value :=
  default VNone (table_get table origin).

Definition output (table : list (string * value)) : value :=
  match run table with
  | Ok out => out
  | Raise _ => VNone
  end.
End Scenario.

(** ** The script, lines 150-164 *)

Section script.
Context (env : Env).
(** [str.strip], which depends on the Unicode character tables. *)
Context (strip : string → string).

(** A run of the script on the line the user types: the document that
    [json.dump] writes to [swagger.json], or [None] when nothing is saved. *)
Definition main (line : string) : result (option value) :=
  let api_docs_url := strip line in
  output ← convert_swagger_12_to_20 env api_docs_url;
  Ok (if truthy output then Some output else None).
End script.

(** ** Further observations *)

(** [n] slashes. *)
Fixpoint slashes (n : nat) : string :=
  match n with
  | O => EmptyString
  | S n' => String slash (slashes n')
  end.

(** The response object of the last of the response messages [resps] whose
    code is written [code]. *)
Fixpoint last_response (env : Env) (resps : list value) (code : hkey)
  : option value :=
  match resps with
  | [] => None
  | resp :: resps' =>
      match last_response env resps' code with
      | Some later => Some later
      | None =>
          match convert_response env resp with
          | Ok (c, response) =>
              if decide (code = HStr c) then Some response else None
          | Raise _ => None
          end
      end
  end.

(** The parameter object [spec] follows lines 82-90 on the parameter [d]:
    [name], [paramType] and [required] are copied, [description] defaults
    to the empty string, [type] defaults to ["string"] and is lower-cased,
    [format] is there when the parameter has one. *)
Definition param_rule (env : Env) (d : dict) (spec : value) : Prop :=
  at_keys spec [HStr "name"] = Dict.get d "name" ∧
  at_keys spec [HStr "in"] = Dict.get d "paramType" ∧
  at_keys spec [HStr "required"] = Dict.get d "required" ∧
  at_keys spec [HStr "description"] =
    Some (default (VStr "") (Dict.get d "description")) ∧
  (∃ type,
     default (VStr "string") (Dict.get d "type") = VStr type ∧
     at_keys spec [HStr "type"] = Some (VStr (str_lower env type))) ∧
  at_keys spec [HStr "format"] = Dict.get d "format".

(** The property schema [spec] follows lines 123-128 on the property [d]:
    [type] is lower-cased, [description] defaults to the empty string,
    [format] is there when the property has a truthy one. *)
Definition property_rule (env : Env) (d : dict) (spec : value) : Prop :=
  (∃ type,
     Dict.get d "type" = Some (VStr type) ∧
     at_keys spec [HStr "type"] = Some (VStr (str_lower env type))) ∧
  at_keys spec [HStr "description"] =
    Some (default (VStr "") (Dict.get d "description")) ∧
  at_keys spec [HStr "format"] =
    (if truthy (default VNone (Dict.get d "format"))
     then Dict.get d "format" else None).

(** [d] has every key of [ks]. *)
Definition has_keys (d : dict) (ks : list string) : Prop :=
  Forall (λ k, is_Some (Dict.get d (HStr k))) ks.


(** ** More example documents *)

Module Cases.
Import Concrete Scenario.

(** [str.strip] on ASCII text: blanks, tabs, line feeds, vertical tabs, form
    feeds and carriage returns go. *)
Definition is_space (c : ascii) : bool :=
  let n := nat_of_ascii c in
  (n =? 32)%nat || ((9 <=? n)%nat && (n <=? 13)%nat).

Fixpoint lstrip (s : string) : string :=
  match s with
  | EmptyString => EmptyString
  | String c s' => if is_space c then lstrip s' else s
  end.

Fixpoint rstrip (s : string) : string :=
  match s with
  | EmptyString => EmptyString
  | String c s' =>
      match rstrip s' with
      | EmptyString => if is_space c then EmptyString else String c EmptyString
      | r => String c r
      end
  end.

Definition strip (s : string) : string := rstrip (lstrip s).

(** An [info] block that already has a [version], and no [apiVersion]. *)
Definition versions : list (string * value) :=
  [ (origin,
     obj [ ("info", obj [ ("title", VStr "Pet store");
                          ("version", VStr "0.9") ]);
           ("apis", VList []) ]) ].

(** Two operations on [/pet], one with parameters and two response messages
    of the same code. *)
Definition store : list (string * value) :=
  [ (origin, listing [ reference "/pet-controller" "Pets" ]);
    ("http://host/v1/api-docs//pet-controller",
     declaration
       [ ("/pet",
          [ operation "GET" "List pets"
              [ ("parameters",
                 VList [ obj [ ("name", VStr "limit");
                               ("paramType", VStr "query");
                               ("required", VBool false);
                               ("type", VStr "Integer");
                               ("format", VStr "int32") ];
                         obj [ ("name", VStr "tag");
                               ("paramType", VStr "query");
                               ("required", VBool false) ] ]);
                ("responseMessages",
                 VList [ obj [ ("code", VInt 200);
                               ("message", VStr "first");
                               ("responseModel", VStr "Pet") ];
                         obj [ ("code", VStr "200");
                               ("message", VStr "second");
                               ("responseModel", VStr "") ] ]) ];
            operation "POST" "Add a pet" [] ]) ]) ].

(** A model with a described property and a formatted one. *)
Definition catalogue : list (string * value) :=
  [ (origin,
     obj [ ("info", obj [ ("title", VStr "Pet store") ]);
           ("apis", VList []);
           ("models",
            obj [ ("Pet",
                   obj [ ("description", VStr "A pet");
                         ("properties",
                          obj [ ("id", obj [ ("type", VStr "Integer");
                                             ("format", VStr "int64") ]);
                                ("name", obj [ ("type", VStr "String");
                                               ("description", VStr "Its name");
                                               ("format", VStr "") ]) ]) ]);
                  ("Tag", obj [ ("properties", obj []) ]) ]) ]) ].

(** One reference whose declaration is a dictionary without [apis], and one
    whose declaration is a list. *)
Definition bare : list (string * value) :=
  [ (origin, listing [ reference "/pet-controller" "Pets" ]);
    ("http://host/v1/api-docs//pet-controller", obj [ ("swaggerVersion", VStr "1.2") ]) ].

Definition listed : list (string * value) :=
  [ (origin, listing [ reference "/pet-controller" "Pets" ]);
    ("http://host/v1/api-docs//pet-controller", VList []) ].

(** An origin URL with trailing slashes before the query that ends it. *)
Definition slashed : string := "http://host/v1//?x=api-docs".
End Cases.

(* ================================================================= *)
(** * Properties *)

(** ** The builtins on examples *)

Example endswith_suffix :
  endswith "http://host/v1/api-docs" "api-docs" = true ∧
  endswith "docs" "api-docs" = false.
Proof. by split. Qed.

Example rstrip_slash_trailing :
  rstrip_slash "/a//b///" = "/a//b" ∧ rstrip_slash "///" = "".
Proof. by split. Qed.

Example last_segment_of_path :
  last_segment "/v2/pet-controller" = "pet-controller" ∧
  last_segment "pet" = "pet" ∧
  last_segment "pet/" = "".
Proof. by repeat split. Qed.

Example replace_every_occurrence :
  replace_with_empty "-controller" "pet-controller" = "pet" ∧
  replace_with_empty "-controller" "a-controller-b-controller" = "a-b" ∧
  replace_with_empty "-controller" "-contr-controlleroller" = "-controller".
Proof. by repeat split. Qed.

Example parse_url_parts :
  Concrete.parse_url "HTTP://host:80/a;b/c;d?x=/api-docs#f" =
  Ok {| url_scheme := "http"; url_netloc := "host:80"; url_path := "/a;b/c" |}.
Proof. reflexivity. Qed.

Example py_str_scalars :
  py_str (Concrete.env []) (VInt 404) = "404" ∧
  py_str (Concrete.env []) (VInt (-1)) = "-1" ∧
  py_str (Concrete.env []) (VStr "404") = "404" ∧
  py_str (Concrete.env []) VNone = "None".
Proof. by repeat split. Qed.

(** ** The exception monad and its loops *)

Lemma bind_Ok {A B : Type} (m : result A) (f : A → result B) (b : B) :
  m ≫= f = Ok b ↔ ∃ a, m = Ok a ∧ f a = Ok b.
Proof.
  destruct m as [a|e]; simpl; split.
  - intros H. by exists a.
  - by intros (a' & [= ->] & H).
  - discriminate.
  - by intros (a' & [=] & _).
Qed.

Lemma subscript_Ok (d : dict) (k : string) (v : value) :
  subscript d k = Ok v ↔ Dict.get d (HStr k) = Some v.
Proof. unfold subscript. destruct (Dict.get d k); naive_solver. Qed.

Lemma subscriptable_Ok (v : value) (d : dict) :
  subscriptable v = Ok d ↔ v = VDict d.
Proof. destruct v; naive_solver. Qed.

Lemma dict_attr_Ok (v : value) (d : dict) : dict_attr v = Ok d ↔ v = VDict d.
Proof. destruct v; naive_solver. Qed.

Lemma str_attr_Ok (v : value) (s : string) : str_attr v = Ok s ↔ v = VStr s.
Proof. destruct v; naive_solver. Qed.

(** Takes apart the hypotheses saying that a chain of binds returned. *)
Ltac inv_ok :=
  repeat match goal with
  | H : Ok _ = Ok _ |- _ => injection H as H; try subst
  | H : Raise _ = Ok _ |- _ => discriminate H
  | H : mret _ = Ok _ |- _ => injection H as H; try subst
  | H : (_ ≫= _) = Ok _ |- _ =>
      let a := fresh "a" in
      let Ha := fresh "H" a in
      apply bind_Ok in H as (a & Ha & H)
  | H : subscript _ _ = Ok _ |- _ => apply subscript_Ok in H
  | H : subscriptable _ = Ok _ |- _ => apply subscriptable_Ok in H; try subst
  | H : dict_attr _ = Ok _ |- _ => apply dict_attr_Ok in H; try subst
  | H : str_attr _ = Ok _ |- _ => apply str_attr_Ok in H; try subst
  end.

(** Replays in the goal the computations known to have returned. *)
Ltac rew_ok :=
  repeat match goal with
  | H : ?m = Ok _ |- context [?m] => rewrite H; simpl
  | H : ?m = Some _ |- context [?m] => rewrite H; simpl
  end.

(** Closes a goal about an explicit document by running the code. *)
Ltac by_run := vm_compute; reflexivity.

(** Checks that an explicit dictionary has no repeated key. *)
Ltac by_wf :=
  unfold dict_wf; refine (bool_decide_unpack _ _); vm_compute; exact I.

Section loops.
Context {S A : Type}.
Implicit Types (body : S → A → result S) (l : list A) (st : S).

Lemma for_each_app body l1 l2 st :
  for_each body (l1 ++ l2) st =
  for_each body l1 st ≫= for_each body l2.
Proof.
  revert st. induction l1 as [|x l1 IH]; intros st; simpl; [done|].
  destruct (body st x) as [st'|e]; simpl; [apply IH | done].
Qed.

(** A property kept by every step that returns is kept by the loop. *)
Lemma for_each_invariant (P : S → Prop) body l st st' :
  (∀ s x s', x ∈ l → P s → body s x = Ok s' → P s') →
  P st → for_each body l st = Ok st' → P st'.
Proof.
  revert st. induction l as [|x l IH]; intros st Hstep HP Hrun; simpl in Hrun.
  - by inv_ok.
  - inv_ok. eapply IH; [| |done].
    + intros s y s' Hy. apply Hstep. by right.
    + eapply Hstep; [by left|done..].
Qed.

(** A loop whose step computes something from the element alone and
    folds it into the state is a [mapM] followed by a fold. *)
Lemma for_each_collect {C : Type} (f : A → result C) (g : S → C → S) body l st :
  (∀ s x, body s x = c ← f x; Ok (g s c)) →
  for_each body l st = cs ← mapM f l; Ok (foldl g st cs).
Proof.
  intros Hbody. revert st.
  induction l as [|x l IH]; intros st; simpl; [done|].
  rewrite Hbody. destruct (f x) as [c|e]; simpl; [|done].
  rewrite IH. by destruct (mapM f l).
Qed.

Lemma for_each_collect_concat {C : Type} (f : A → result (list C))
    (g : S → C → S) body l st :
  (∀ s x, body s x = cs ← f x; Ok (foldl g s cs)) →
  for_each body l st = css ← mapM f l; Ok (foldl g st (concat css)).
Proof.
  intros Hbody. revert st.
  induction l as [|x l IH]; intros st; simpl; [done|].
  rewrite Hbody. destruct (f x) as [c|e]; simpl; [|done].
  rewrite IH. destruct (mapM f l); simpl; [|done].
  by rewrite foldl_app.
Qed.
End loops.

Lemma mapM_Ok {A B : Type} (f : A → result B) (l : list A) (k : list B) :
  mapM f l = Ok k ↔ Forall2 (λ x y, f x = Ok y) l k.
Proof.
  revert k. induction l as [|x l IH]; intros k; simpl; split.
  - intros [= <-]. constructor.
  - by intros ->%Forall2_nil_inv_l.
  - intros H. inv_ok. constructor; [done|]. by apply IH.
  - intros (y & k' & Hy & Hk & ->)%Forall2_cons_inv_l.
    rewrite Hy. simpl. apply IH in Hk. by rewrite Hk.
Qed.

(** ** Dictionaries *)

Section dict_lemmas.
Context {A : Type}.
Implicit Types (d : list (hkey * A)) (k : hkey) (v : A).

Lemma get_set d k v k' :
  Dict.get (Dict.set d k v) k' =
  if decide (k' = k) then Some v else Dict.get d k'.
Proof.
  induction d as [|[k0 v0] d IH]; simpl.
  - by repeat case_decide.
  - repeat (case_decide; simpl; simplify_eq); done.
Qed.

Lemma get_set_eq d k v : Dict.get (Dict.set d k v) k = Some v.
Proof. rewrite get_set. by rewrite decide_True. Qed.

Lemma get_set_ne d k v k' :
  k' ≠ k → Dict.get (Dict.set d k v) k' = Dict.get d k'.
Proof. intros. rewrite get_set. by rewrite decide_False. Qed.

Lemma mem_true d k : Dict.mem d k = true ↔ is_Some (Dict.get d k).
Proof. unfold Dict.mem. by rewrite bool_decide_eq_true. Qed.

Lemma mem_false d k : Dict.mem d k = false ↔ Dict.get d k = None.
Proof.
  unfold Dict.mem. rewrite bool_decide_eq_false.
  by rewrite eq_None_not_Some.
Qed.

End dict_lemmas.

(** ** Writes to [paths] *)

Lemma add_operation_get2 (ps : paths_t) k me o p m :
  get2 (add_operation ps k me o) p m =
  if decide (p = k ∧ m = HStr me) then Some o else get2 ps p m.
Proof.
  unfold get2, add_operation, Dict.get_default.
  destruct (Dict.mem ps k) eqn:Hmem.
  - apply mem_true in Hmem as [pd Hpd]. rewrite Hpd. simpl.
    rewrite get_set. case_decide as Hp; simplify_eq; simpl.
    + rewrite get_set, Hpd. simpl. repeat case_decide; naive_solver.
    + rewrite decide_False by naive_solver. done.
  - apply mem_false in Hmem. rewrite get_set_eq. simpl.
    rewrite !get_set. case_decide as Hp; simplify_eq; simpl.
    + rewrite Hmem. simpl. repeat case_decide; naive_solver.
    + rewrite decide_False by naive_solver.
      done.
Qed.

Lemma foldl_write_get2 (cs : list (hkey * string * dict)) (ps : paths_t) p m :
  get2 (foldl write ps cs) p m =
  match last_write cs p m with
  | Some o => Some o
  | None => get2 ps p m
  end.
Proof.
  revert ps. induction cs as [|[[k me] o] cs IH]; intros ps; simpl; [done|].
  rewrite IH. destruct (last_write cs p m); [done|].
  unfold write. simpl. rewrite add_operation_get2. by case_decide.
Qed.

(** ** The loop over the API references *)

Section run.
Context (env : Env).

Lemma process_endpoint_writes tag ps endpoint :
  process_endpoint env tag ps endpoint =
  cs ← endpoint_writes env tag endpoint; Ok (foldl write ps cs).
Proof.
  unfold process_endpoint, endpoint_writes.
  destruct (subscriptable endpoint) as [d|]; simpl; [|done].
  destruct (subscript d "path") as [path|]; simpl; [|done].
  destruct (subscript d "operations" ≫= py_iter) as [ops|]; simpl; [|done].
  by apply for_each_collect.
Qed.

Lemma declaration_writes tag endpoints ps :
  for_each (process_endpoint env tag) endpoints ps =
  css ← mapM (endpoint_writes env tag) endpoints;
  Ok (foldl write ps (concat css)).
Proof. apply for_each_collect_concat, process_endpoint_writes. Qed.

Lemma add_tag_paths st tag d st' :
  add_tag st tag d = Ok st' → paths st' = paths st.
Proof. unfold add_tag. case_decide; intros; by inv_ok. Qed.

(** One turn of the loop over the API references: the tag step, then the
    writes of the reference's declaration. *)
Lemma process_api_entry_Ok base st e st' :
  process_api_entry env base st e = Ok st' ↔
  ∃ d path st1 cs,
    e = VDict d ∧ Dict.get d "path" = Some (VStr path) ∧
    add_tag st (tag_name_of path) d = Ok st1 ∧
    entry_writes env base e = Ok cs ∧
    st' = {| tags := tags st1; seen_tags := seen_tags st1;
             paths := foldl write (paths st1) cs |}.
Proof.
  unfold process_api_entry, entry_writes. split.
  - intros H. inv_ok.
    match goal with H : for_each _ _ _ = _ |- _ =>
      rewrite declaration_writes in H end.
    inv_ok.
    eexists _, _, _, _. repeat split; try done.
    simpl. unfold subscript. by rew_ok.
  - intros (d & path & st1 & cs & -> & Hpath%subscript_Ok & Htag & Hcs & ->).
    simpl in *. rewrite Hpath in *. simpl in *.
    rewrite Htag. simpl.
    destruct (declaration_endpoints _) as [eps|]; simpl in *; [|done].
    rewrite declaration_writes. inv_ok. by rew_ok.
Qed.

Lemma run_paths base entries st st' :
  for_each (process_api_entry env base) entries st = Ok st' →
  ∃ cs, run_writes env base entries = Ok cs ∧
        paths st' = foldl write (paths st) cs.
Proof.
  unfold run_writes. revert st.
  induction entries as [|e entries IH]; intros st H; simpl in H.
  - inv_ok. by exists [].
  - inv_ok. apply IH in H as (cs & Hcs & Hpaths). inv_ok.
    apply process_api_entry_Ok in Ha
      as (d & path & st1 & cs1 & -> & Hpath & Htag & Hcs1 & ->).
    exists (cs1 ++ concat a0)%list. split.
    + simpl. simpl in Hcs1. by rew_ok.
    + rewrite Hpaths. simpl. rewrite foldl_app.
      by rewrite (add_tag_paths _ _ _ _ Htag).
Qed.
End run.

(** ** The [tags] list *)

Section tags.
Context (env : Env).

Lemma api_reference_dict (d : dict) (path : string) :
  Dict.get d "path" = Some (VStr path) →
  api_reference (VDict d) = Ok (tag_name_of path, d).
Proof. intros H. unfold api_reference, subscript. simpl. by rewrite H. Qed.

Lemma run_tags base entries st st' :
  for_each (process_api_entry env base) entries st = Ok st' →
  ∃ refs new,
    mapM api_reference entries = Ok refs ∧
    tags st' = (tags st ++ new)%list ∧
    Forall2 tag_of new (first_seen (seen_tags st) refs).
Proof.
  revert st. induction entries as [|e entries IH]; intros st H; simpl in H.
  - inv_ok. exists [], []. by rewrite app_nil_r.
  - inv_ok. apply IH in H as (refs & new & Hrefs & Htags & Hnew).
    match goal with H : process_api_entry _ _ _ _ = _ |- _ =>
      apply process_api_entry_Ok in H
        as (d & path & st1 & cs1 & -> & Hpath & Htag & Hcs1 & ->) end.
    simpl in *. unfold add_tag in Htag.
    exists ((tag_name_of path, d) :: refs). simpl.
    rewrite (api_reference_dict d path) by done. simpl. rew_ok.
    destruct (decide (tag_name_of path ∈ seen_tags st)) as [Hin|Hout].
    + inv_ok. by exists new.
    + inv_ok. simpl in *. eexists (_ :: new). split; [done|].
      split; [by rewrite Htags, <- app_assoc|].
      constructor; [|done]. by eexists.
Qed.

Lemma first_seen_names {A : Type} (seen : gset string) (refs : list (string * A)) :
  list_to_set (first_seen seen refs).*1 =@{gset string} list_to_set refs.*1 ∖ seen
  ∧ NoDup (first_seen seen refs).*1.
Proof.
  revert seen. induction refs as [|[name a] refs IH]; intros seen; csimpl.
  - split; [set_solver | constructor].
  - case_decide as Hin.
    + destruct (IH seen) as [-> ?]. split; [set_solver|done].
    + destruct (IH (seen ∪ {[name]})) as [Heq Hnd]. csimpl. split.
      * rewrite Heq. apply set_eq. intros x.
        destruct (decide (x = name)); set_solver.
      * constructor; [|done].
        intros Hx. apply (elem_of_list_to_set (C := gset string)) in Hx.
        rewrite Heq in Hx. set_solver.
Qed.

(** As many references introduce a name as there are distinct names. *)
Lemma first_seen_length {A : Type} (refs : list (string * A)) :
  length (first_seen ∅ refs) = size (list_to_set refs.*1 : gset string).
Proof.
  destruct (first_seen_names ∅ refs) as [Heq Hnd].
  rewrite difference_empty_L in Heq. rewrite <- Heq.
  rewrite size_list_to_set by done. by rewrite length_fmap.
Qed.
End tags.

(** ** The clean-up pass and the returned document *)

Section cleanup.
Context (env : Env).

Lemma for_values_get {A : Type} (f : A → result A) (d d' : list (hkey * A)) k :
  for_values f d = Ok d' →
  match Dict.get d k with
  | Some v => ∃ v', f v = Ok v' ∧ Dict.get d' k = Some v'
  | None => Dict.get d' k = None
  end.
Proof.
  revert d'. induction d as [|[k0 v0] d IH]; intros d' H; simpl in H.
  - by inv_ok.
  - inv_ok. simpl. case_decide; [by eexists|]. by apply IH.
Qed.

Lemma cleanup_get2 (ps ps' : paths_t) p m :
  cleanup ps = Ok ps' →
  match get2 ps p m with
  | Some o => ∃ o', cleanup_operation o = Ok o' ∧ get2 ps' p m = Some o'
  | None => get2 ps' p m = None
  end.
Proof.
  intros H. unfold get2. apply (for_values_get _ _ _ p) in H.
  destruct (Dict.get ps p) as [pd|]; simpl.
  - destruct H as (pd' & Hpd & ->). simpl.
    by apply for_values_get.
  - by rewrite H.
Qed.

Lemma get_fmap {A B : Type} (f : A → B) (d : list (hkey * A)) k :
  Dict.get (prod_map id f <$> d) k = f <$> Dict.get d k.
Proof.
  induction d as [|[k0 v0] d IH]; csimpl; [done|]. by case_decide.
Qed.

Lemma paths_value_at (ps : paths_t) p m :
  at_keys (paths_value ps) [p; m] = VDict <$> get2 ps p m.
Proof.
  unfold paths_value, get2. simpl. rewrite get_fmap.
  destruct (Dict.get ps p) as [pd|]; simpl; [|done].
  rewrite get_fmap. by destruct (Dict.get pd m).
Qed.
End cleanup.

Section convert.
Context (env : Env).

(** What a run that got its resource listing and returned went through. *)
Lemma convert_Ok url input out :
  endswith url "api-docs" = true →
  http_get env url = Some input →
  convert_swagger_12_to_20 env url = Ok out →
  ∃ parsed root info entries st models definitions ps,
    urlparse env url = Ok parsed ∧
    input = VDict root ∧
    Dict.get root "info" = Some (VDict info) ∧
    subscript root "apis" ≫= py_iter = Ok entries ∧
    for_each (process_api_entry env (base_url_of parsed)) entries init_state
      = Ok st ∧
    dict_attr (Dict.get_default root "models" (VDict [])) = Ok models ∧
    for_each (add_definition env) models [] = Ok definitions ∧
    cleanup (paths st) = Ok ps ∧
    out = VDict
            [ (HStr "swagger", VStr "2.0");
              (HStr "info",
               VDict (Dict.set info "version"
                        (Dict.get_default root "apiVersion" (VStr "1.0"))));
              (HStr "host", VStr (url_netloc parsed));
              (HStr "basePath", VStr (rstrip_slash (url_path parsed)));
              (HStr "schemes", VList [VStr (url_scheme parsed)]);
              (HStr "paths", paths_value ps);
              (HStr "definitions", VDict definitions);
              (HStr "tags", VList (tags st)) ].
Proof.
  intros Hsuffix Hget. unfold convert_swagger_12_to_20.
  rewrite Hsuffix, Hget. simpl. intros H. inv_ok.
  eexists _, _, _, _, _, _, _, _. repeat split; try done.
  - unfold subscript; by rew_ok.
  - by apply dict_attr_Ok.
Qed.
End convert.

(** ** Where the entries of [paths] come from *)

Lemma mapM_Ok_elem {A B : Type} (f : A → result B) (l : list A) (k : list B) y :
  mapM f l = Ok k → y ∈ k → ∃ x, x ∈ l ∧ f x = Ok y.
Proof.
  intros H%mapM_Ok. induction H as [|x y' l k Hxy H IH].
  - by intros ?%elem_of_nil.
  - intros [->|Hy]%elem_of_cons.
    + exists x. split; [left|done].
    + destruct (IH Hy) as (x' & ? & ?). exists x'. split; [by right|done].
Qed.

Lemma elem_of_concat {A : Type} (ls : list (list A)) (x : A) :
  x ∈ concat ls ↔ ∃ l, l ∈ ls ∧ x ∈ l.
Proof.
  induction ls as [|l ls IH]; simpl.
  - split; [by intros ?%elem_of_nil | by intros (l & ?%elem_of_nil & _)].
  - rewrite elem_of_app, IH. setoid_rewrite elem_of_cons. naive_solver.
Qed.

Lemma last_write_elem cs p m o :
  last_write cs p m = Some o → ∃ me, m = HStr me ∧ (p, me, o) ∈ cs.
Proof.
  induction cs as [|[[k me] o0] cs IH]; simpl; [done|].
  destruct (last_write cs p m) as [later|].
  - intros [= ->]. destruct IH as (me' & ? & ?); [done|].
    exists me'. split; [done|by right].
  - case_decide as Heq; [|done]. destruct Heq as [-> ->].
    intros [= ->]. exists me. split; [done|left].
Qed.

Section writes.
Context (env : Env).

Lemma endpoint_writes_elem tag endpoint cs c :
  endpoint_writes env tag endpoint = Ok cs → c ∈ cs →
  ∃ ed url_template operations operation,
    endpoint = VDict ed ∧
    Dict.get ed "path" = Some url_template ∧
    subscript ed "operations" ≫= py_iter = Ok operations ∧
    operation ∈ operations ∧
    contribution env tag url_template operation = Ok c.
Proof.
  unfold endpoint_writes. intros H Hc. inv_ok.
  match goal with H : mapM _ _ = _ |- _ =>
    destruct (mapM_Ok_elem _ _ _ _ H Hc) as (operation & ? & ?) end.
  eexists _, _, _, operation. repeat split; try done.
  unfold subscript. by rew_ok.
Qed.

Lemma entry_writes_elem base entry cs c :
  entry_writes env base entry = Ok cs → c ∈ cs →
  ∃ d path endpoints endpoint css,
    entry = VDict d ∧
    Dict.get d "path" = Some (VStr path) ∧
    declaration_endpoints (fetch_api_details env base path) = Ok endpoints ∧
    endpoint ∈ endpoints ∧
    endpoint_writes env (tag_name_of path) endpoint = Ok css ∧
    c ∈ css.
Proof.
  unfold entry_writes. intros H Hc. inv_ok.
  apply elem_of_concat in Hc as (css & Hcss & Hc).
  match goal with H : mapM _ _ = _ |- _ =>
    destruct (mapM_Ok_elem _ _ _ _ H Hcss) as (endpoint & ? & ?) end.
  by eexists _, _, _, endpoint, css.
Qed.

(** Every write of a run is the contribution of an operation of a
    fetched declaration. *)
Lemma run_writes_elem base entries cs c :
  run_writes env base entries = Ok cs → c ∈ cs →
  ∃ tag url_template operation,
    source_operation env base entries tag url_template operation ∧
    contribution env tag url_template operation = Ok c.
Proof.
  unfold run_writes. intros H Hc. inv_ok.
  apply elem_of_concat in Hc as (cs1 & Hcs1 & Hc).
  match goal with H : mapM _ _ = _ |- _ =>
    destruct (mapM_Ok_elem _ _ _ _ H Hcs1) as (entry & Hentry & Hw) end.
  destruct (entry_writes_elem _ _ _ _ Hw Hc)
    as (d & path & endpoints & endpoint & css & -> & ? & ? & ? & Hep & Hc').
  destruct (endpoint_writes_elem _ _ _ _ Hep Hc')
    as (ed & url_template & operations & operation & -> & ? & ? & ? & ?).
  exists (tag_name_of path), url_template, operation. split; [|done].
  by exists d, path, endpoints, ed, operations.
Qed.

(** The writes of a run decide the [paths] of its output. *)
Lemma convert_paths url input out :
  endswith url "api-docs" = true →
  http_get env url = Some input →
  convert_swagger_12_to_20 env url = Ok out →
  ∃ parsed entries cs,
    urlparse env url = Ok parsed ∧
    api_entries_of input = Ok entries ∧
    run_writes env (base_url_of parsed) entries = Ok cs ∧
    ∀ p m,
      match last_write cs p m with
      | Some o =>
          ∃ o', cleanup_operation o = Ok o' ∧
                at_keys out [HStr "paths"; p; m] = Some (VDict o')
      | None => at_keys out [HStr "paths"; p; m] = None
      end.
Proof.
  intros Hsuffix Hget Hrun.
  destruct (convert_Ok env _ _ _ Hsuffix Hget Hrun)
    as (parsed & root & info & entries & st & models & definitions & ps
        & Hparsed & -> & Hinfo & Hentries & Hloop & Hmodels & Hdefs
        & Hclean & ->).
  destruct (run_paths env _ _ _ _ Hloop) as (cs & Hcs & Hpaths).
  exists parsed, entries, cs. repeat split; try done.
  intros p m.
  change (at_keys _ [HStr "paths"; p; m])
    with (at_keys (paths_value ps) [p; m]).
  rewrite paths_value_at.
  pose proof (cleanup_get2 _ _ p m Hclean) as Hpm.
  rewrite Hpaths, foldl_write_get2 in Hpm. simpl in Hpm.
  destruct (last_write cs p m) as [o|].
  - destruct Hpm as (o' & ? & ->). by exists o'.
  - unfold get2 in Hpm at 1. simpl in Hpm. by rewrite Hpm.
Qed.
End writes.

(** ** Operation objects *)

Lemma at_keys_app (v : value) (ks1 ks2 : list hkey) :
  at_keys v (ks1 ++ ks2) = at_keys v ks1 ≫= λ v', at_keys v' ks2.
Proof.
  revert v. induction ks1 as [|k ks1 IH]; intros v; simpl; [done|].
  destruct v; try done.
  destruct (Dict.get d k) as [v'|]; simpl; [apply IH | done].
Qed.

Section operations.
Context (env : Env).

Lemma convert_operation_Ok tag operation me o :
  convert_operation env tag operation = Ok (me, o) →
  ∃ d s params parameters resps responses summary notes consumes produces,
    operation = VDict d ∧
    Dict.get d "method" = Some (VStr s) ∧
    me = str_lower env s ∧
    py_iter (Dict.get_default d "parameters" (VList [])) = Ok params ∧
    mapM (convert_param env) params = Ok parameters ∧
    py_iter (Dict.get_default d "responseMessages" (VList [])) = Ok resps ∧
    for_each (add_response env) resps [] = Ok responses ∧
    o = operation_object tag summary notes parameters responses
          consumes produces.
Proof.
  unfold convert_operation. intros H. inv_ok.
  by eexists _, _, _, _, _, _, _, _, _, _.
Qed.

Lemma contribution_Ok tag path operation k me o :
  contribution env tag path operation = Ok (k, me, o) →
  convert_operation env tag operation = Ok (me, o) ∧ hashable path = Ok k.
Proof.
  unfold contribution. intros H. inv_ok.
  match goal with H : convert_operation _ _ _ = Ok ?x |- _ =>
    destruct x; simpl in * end.
  inv_ok. by simplify_eq.
Qed.

(** The clean-up pass on an operation object as lines 103-111 build it. *)
Lemma cleanup_operation_object tag summary notes parameters responses
    consumes produces :
  ∃ o',
    cleanup_operation
      (operation_object tag summary notes parameters responses
         consumes produces) = Ok o' ∧
    Dict.get o' "parameters" =
      match parameters with [] => None | _ => Some (VList parameters) end ∧
    Dict.get o' "responses" =
      match responses with [] => None | _ => Some (VDict responses) end.
Proof.
  destruct parameters, responses; by eexists.
Qed.

(** Every entry of a [responses] mapping is the translation of one of
    the response messages. *)
Lemma responses_elem resps responses code r :
  for_each (add_response env) resps [] = Ok responses →
  Dict.get responses code = Some r →
  ∃ resp c, resp ∈ resps ∧ convert_response env resp = Ok (c, r) ∧
            code = HStr c.
Proof.
  intros Hloop. revert code r.
  refine (for_each_invariant
            (λ rs, ∀ code r, Dict.get rs code = Some r →
               ∃ resp c, resp ∈ resps ∧
                 convert_response env resp = Ok (c, r) ∧ code = HStr c)
            _ _ _ _ _ _ Hloop).
  - intros rs resp rs' Hresp IH Hstep code r. unfold add_response in Hstep.
    inv_ok.
    match goal with H : convert_response _ _ = Ok ?x |- _ =>
      destruct x as [c r0]; simpl in * end.
    inv_ok. rewrite get_set. case_decide as Hc.
    + intros [= <-]. by exists resp, c.
    + apply IH.
  - by intros code r.
Qed.
End operations.

(** ** Operation and response objects of the output *)

Section output.
Context (env : Env).

(** Every operation object of the output is the cleaned-up contribution
    of an operation of a fetched declaration. *)
Lemma output_operation url input out p m v :
  endswith url "api-docs" = true →
  http_get env url = Some input →
  convert_swagger_12_to_20 env url = Ok out →
  at_keys out [HStr "paths"; p; m] = Some v →
  ∃ parsed entries tag url_template operation me o o',
    urlparse env url = Ok parsed ∧
    api_entries_of input = Ok entries ∧
    source_operation env (base_url_of parsed) entries tag url_template
      operation ∧
    hashable url_template = Ok p ∧
    m = HStr me ∧
    convert_operation env tag operation = Ok (me, o) ∧
    cleanup_operation o = Ok o' ∧
    v = VDict o'.
Proof.
  intros Hsuffix Hget Hrun Hv.
  destruct (convert_paths env _ _ _ Hsuffix Hget Hrun)
    as (parsed & entries & cs & Hparsed & Hentries & Hcs & Hpaths).
  specialize (Hpaths p m).
  destruct (last_write cs p m) as [o|] eqn:Hlast; [|congruence].
  destruct Hpaths as (o' & Hclean & Hat).
  apply last_write_elem in Hlast as (me & -> & Hin).
  destruct (run_writes_elem env _ _ _ _ Hcs Hin)
    as (tag & url_template & operation & Hsrc & Hc).
  apply contribution_Ok in Hc as [Hop Hkey].
  exists parsed, entries, tag, url_template, operation, me, o, o'.
  repeat split; try done. congruence.
Qed.

(** Every response object of the output is the translation of a response
    message of a fetched declaration. *)
Lemma output_response url input out p m code r :
  endswith url "api-docs" = true →
  http_get env url = Some input →
  convert_swagger_12_to_20 env url = Ok out →
  at_keys out [HStr "paths"; p; m; HStr "responses"; code] = Some r →
  ∃ parsed entries resp c,
    urlparse env url = Ok parsed ∧
    api_entries_of input = Ok entries ∧
    source_response env (base_url_of parsed) entries resp ∧
    convert_response env resp = Ok (c, r) ∧
    code = HStr c.
Proof.
  intros Hsuffix Hget Hrun Hr.
  change [HStr "paths"; p; m; HStr "responses"; code]
    with ([HStr "paths"; p; m] ++ [HStr "responses"; code])%list in Hr.
  rewrite at_keys_app in Hr.
  destruct (at_keys out [HStr "paths"; p; m]) as [v|] eqn:Hv; [|done].
  simpl in Hr.
  destruct (output_operation _ _ _ _ _ _ Hsuffix Hget Hrun Hv)
    as (parsed & entries & tag & url_template & operation & me & o & o'
        & Hparsed & Hentries & Hsrc & Hkey & -> & Hop & Hclean & ->).
  apply convert_operation_Ok in Hop
    as (od & s & params & parameters & resps & responses & summary & notes
        & consumes & produces & -> & Hmethod & -> & Hparams & Hparameters
        & Hresps & Hresponses & ->).
  destruct (cleanup_operation_object tag summary notes parameters responses
              consumes produces) as (o'' & Hclean' & _ & Hrs).
  rewrite Hclean in Hclean'. injection Hclean' as <-.
  rewrite Hrs in Hr.
  assert (Dict.get responses code = Some r) as Hcode.
  { destruct responses as [|kv responses']; [done|].
    remember (kv :: responses') as rs. simpl in Hr.
    by destruct (Dict.get rs code). }
  destruct (responses_elem env _ _ _ _ Hresponses Hcode)
    as (resp & c & Hin & Hresp & ->).
  exists parsed, entries, resp, c. repeat split; try done.
  by exists tag, url_template, od, resps.
Qed.
End output.

(** ** Response messages *)

Lemma convert_response_Ok (env : Env) resp c r :
  convert_response env resp = Ok (c, r) ↔
  ∃ d code message response_model,
    resp = VDict d ∧
    Dict.get d "code" = Some code ∧
    Dict.get d "message" = Some message ∧
    Dict.get d "responseModel" = Some response_model ∧
    c = py_str env code ∧
    r = VDict
          [ (HStr "description",
             if truthy message then message else VStr "No description");
            (HStr "schema",
             if truthy response_model
             then schema_ref (py_str env response_model) else VNone) ].
Proof.
  unfold convert_response. split.
  - intros H. inv_ok. by eexists _, _, _, _.
  - intros (d & code & message & response_model & -> & Hc & Hm & Hr & -> & ->).
    simpl. unfold subscript. by rewrite Hc, Hm, Hr.
Qed.

(** ** The last write to a pair *)

Lemma last_write_None cs p m :
  (∀ c, c ∈ cs → ¬ (c.1.1 = p ∧ HStr c.1.2 = m)) → last_write cs p m = None.
Proof.
  induction cs as [|[[k me] o] cs IH]; intros Hnone; simpl; [done|].
  rewrite IH.
  - rewrite decide_False; [done|]. intros [-> ->].
    apply (Hnone (k, me, o)); [left|done].
  - intros c Hc. apply Hnone. by right.
Qed.

Lemma last_write_last before p me o after :
  (∀ c, c ∈ after → ¬ (c.1.1 = p ∧ c.1.2 = me)) →
  last_write (before ++ (p, me, o) :: after) p (HStr me) = Some o.
Proof.
  intros Hafter. induction before as [|[[k me'] o'] before IH]; simpl.
  - rewrite last_write_None.
    + by rewrite decide_True.
    + intros c Hc [? [=]]. by apply (Hafter c).
  - by rewrite IH.
Qed.

(** ** Model definitions *)

Section models.
Context (env : Env).

Lemma convert_property_Ok prop_def prop_spec required :
  convert_property env prop_def = Ok (prop_spec, required) →
  required = is_required prop_def.
Proof. unfold convert_property. intros H. by inv_ok. Qed.

Lemma add_property_required props properties0 required0 properties required :
  for_each (add_property env) props (properties0, required0)
    = Ok (properties, required) →
  required = (required0 ++ required_names props)%list.
Proof.
  unfold required_names.
  revert properties0 required0.
  induction props as [|[prop_name prop_def] props IH];
    intros properties0 required0 H; simpl in H.
  - inv_ok. by rewrite app_nil_r.
  - apply bind_Ok in H as ([properties1 required1] & Hstep & H).
    apply IH in H as ->. unfold add_property in Hstep.
    apply bind_Ok in Hstep as ([prop_spec is_req] & Hprop & Hstep).
    apply convert_property_Ok in Hprop as ->. inv_ok.
    rewrite filter_cons. simpl.
    destruct (is_required prop_def); simpl; [|done].
    by rewrite <- app_assoc.
Qed.

Lemma convert_model_required d props definition :
  Dict.get d "properties" = Some (VDict props) →
  convert_model env (VDict d) = Ok definition →
  at_keys definition [HStr "required"] =
    Some (match required_names props with
          | [] => VNone
          | names => VList names
          end).
Proof.
  intros Hprops. unfold convert_model, subscript. simpl.
  rewrite Hprops. simpl. intros H.
  apply bind_Ok in H as ([properties required] & Hloop & H).
  apply add_property_required in Hloop as ->. inv_ok.
  simpl. by destruct (required_names props).
Qed.

Lemma definitions_other models definitions0 definitions name :
  for_each (add_definition env) models definitions0 = Ok definitions →
  name ∉ Dict.keys models →
  Dict.get definitions name = Dict.get definitions0 name.
Proof.
  unfold Dict.keys. revert definitions0.
  induction models as [|[k v] models IH]; intros definitions0 H Hname;
    simpl in H.
  - by inv_ok.
  - csimpl in Hname. apply not_elem_of_cons in Hname as [Hne Hname].
    unfold add_definition in H at 1. inv_ok.
    rewrite (IH _ H Hname). by apply get_set_ne.
Qed.

(** Under unique model names, each definition of the output is the
    translation of the model of that name. *)
Lemma definitions_get models definitions0 definitions name model_def :
  for_each (add_definition env) models definitions0 = Ok definitions →
  dict_wf models →
  Dict.get models name = Some model_def →
  ∃ definition,
    convert_model env model_def = Ok definition ∧
    Dict.get definitions name = Some definition.
Proof.
  unfold dict_wf, Dict.keys. revert definitions0.
  induction models as [|[k v] models IH]; intros definitions0 H Hwf Hget;
    simpl in H, Hget; [done|].
  csimpl in Hwf. apply NoDup_cons in Hwf as [Hk Hwf].
  unfold add_definition in H at 1. inv_ok.
  case_decide as Hname.
  - injection Hget as <-. subst k. eexists. split; [done|].
    rewrite (definitions_other _ _ _ _ H Hk). apply get_set_eq.
  - by apply (IH _ H).
Qed.
End models.

(** ** References whose declaration does not resolve *)

Lemma mapM_Ok_image {A B : Type} (f : A → result B) (l : list A) (k : list B) x :
  mapM f l = Ok k → x ∈ l → ∃ y, y ∈ k ∧ f x = Ok y.
Proof.
  intros H%mapM_Ok. induction H as [|x' y l k Hxy H IH].
  - by intros ?%elem_of_nil.
  - intros [->|Hx]%elem_of_cons.
    + exists y. split; [left|done].
    + destruct (IH Hx) as (y' & ? & ?). exists y'. split; [by right|done].
Qed.

Lemma Forall2_elem_r {A B : Type} (P : A → B → Prop) (l : list A) (k : list B) y :
  Forall2 P l k → y ∈ k → ∃ x, x ∈ l ∧ P x y.
Proof.
  induction 1 as [|x y' l k Hxy H IH].
  - by intros ?%elem_of_nil.
  - intros [->|Hy]%elem_of_cons.
    + exists x. split; [left|done].
    + destruct (IH Hy) as (x' & ? & ?). exists x'. split; [by right|done].
Qed.

Section outage.
Context (env : Env).

Lemma fetch_failed base path :
  http_get env (base ++ path) = None →
  fetch_api_details env base path = VDict [].
Proof. unfold fetch_api_details. by intros ->. Qed.

(** A reference whose declaration does not resolve takes the tag step
    and nothing else. *)
Lemma process_unresolved base st d path :
  Dict.get d "path" = Some (VStr path) →
  http_get env (base ++ path) = None →
  process_api_entry env base st (VDict d) = add_tag st (tag_name_of path) d.
Proof.
  intros Hpath Hfail. unfold process_api_entry, subscript. simpl.
  rewrite Hpath. simpl. rewrite (fetch_failed _ _ Hfail). simpl.
  destruct (add_tag st (tag_name_of path) d) as [[]|]; by simpl.
Qed.

(** Every reference of a run that returned has its tag in the output. *)
Lemma run_tag_present base entries st d path :
  for_each (process_api_entry env base) entries init_state = Ok st →
  VDict d ∈ entries →
  Dict.get d "path" = Some (VStr path) →
  ∃ description, tag_entry (tag_name_of path) description ∈ tags st.
Proof.
  intros Hloop Hin Hpath.
  destruct (run_tags env _ _ _ _ Hloop) as (refs & new & Hrefs & Htags & Hnew).
  simpl in Htags, Hnew. subst new.
  destruct (mapM_Ok_image _ _ _ _ Hrefs Hin) as (r & Hr & Href).
  rewrite (api_reference_dict d path Hpath) in Href. injection Href as <-.
  assert (tag_name_of path ∈ (first_seen ∅ refs).*1) as Hname.
  { apply (elem_of_list_to_set (C := gset string)).
    destruct (first_seen_names ∅ refs) as [-> _].
    rewrite difference_empty_L. apply elem_of_list_to_set.
    apply list_elem_of_fmap. by exists (tag_name_of path, d). }
  apply list_elem_of_fmap in Hname as ([name d'] & Hname & Hfirst).
  simpl in Hname. subst name.
  destruct (Forall2_elem_r _ _ _ _ Hnew Hfirst)
    as (t & Ht & description & _ & ->).
  by exists description.
Qed.
End outage.

(* ================================================================= *)
(** * The claims *)

Import Scenario.

(** ** [host], [basePath] and [schemes] *)

(** C1 (as amended).  A conversion whose origin URL ends in ["api-docs"] and
    that returns a document takes [host], [basePath] and [schemes] from the
    parsed origin URL: [host] is its network location, [schemes] holds its
    protocol alone, and [basePath] is its whole path with trailing slashes
    removed, the ["api-docs"] segment included. *)
Theorem origin_fields (env : Env) (url : string) (input out : value) :
  endswith url "api-docs" = true →
  http_get env url = Some input →
  convert_swagger_12_to_20 env url = Ok out →
  ∃ parsed,
    urlparse env url = Ok parsed ∧
    at_keys out [HStr "host"] = Some (VStr (url_netloc parsed)) ∧
    at_keys out [HStr "basePath"] =
      Some (VStr (rstrip_slash (url_path parsed))) ∧
    at_keys out [HStr "schemes"] = Some (VList [VStr (url_scheme parsed)]).
Proof.
  intros Hsuffix Hget Hrun.
  destruct (convert_Ok env _ _ _ Hsuffix Hget Hrun)
    as (parsed & root & info & entries & st & models & definitions & ps
        & Hparsed & -> & Hinfo & Hentries & Hloop & Hmodels & Hdefs
        & Hclean & ->).
  by exists parsed.
Qed.

(** On scenario A the three fields are ["host"], ["/v1/api-docs"] and
    [["http"]]. *)
Lemma origin_fields_witness :
  ∃ out,
    Scenario.run Scenario.pets = Ok out ∧
    at_keys out [HStr "host"] = Some (VStr "host") ∧
    at_keys out [HStr "basePath"] = Some (VStr "/v1/api-docs") ∧
    at_keys out [HStr "schemes"] = Some (VList [VStr "http"]).
Proof.
  eexists. split; [vm_compute; reflexivity|].
  destruct (origin_fields (Concrete.env Scenario.pets) Scenario.origin _ _
              eq_refl eq_refl eq_refl)
    as (parsed & Hparsed & Hhost & Hbase & Hschemes).
  injection Hparsed as <-. exact (conj Hhost (conj Hbase Hschemes)).
Defined.

(** C1 as stated fails: for the origin URL [http://host/v1/api-docs] the
    output has [basePath == "/v1/api-docs"], not ["/v1"]. *)
Lemma origin_base_path_counterexample :
  ∃ out,
    Scenario.run Scenario.pets = Ok out ∧
    at_keys out [HStr "basePath"] = Some (VStr "/v1/api-docs") ∧
    at_keys out [HStr "basePath"] ≠ Some (VStr "/v1").
Proof. eexists. split; [vm_compute; reflexivity|]. by split. Qed.

(** ** The [schema] of a response *)

(** C2 (as amended).  Every response object of the output is the
    translation of a response message of a fetched declaration, and it
    always has the [schema] key: its value is
    [{"$ref": "#/definitions/<responseModel>"}] when the message's
    [responseModel] is truthy, and null when it is empty or falsy. *)
Theorem response_schema (env : Env) (url : string) (input out : value)
    (p m code : hkey) (r : value) :
  endswith url "api-docs" = true →
  http_get env url = Some input →
  convert_swagger_12_to_20 env url = Ok out →
  at_keys out [HStr "paths"; p; m; HStr "responses"; code] = Some r →
  ∃ parsed entries resp response_model,
    urlparse env url = Ok parsed ∧
    api_entries_of input = Ok entries ∧
    source_response env (base_url_of parsed) entries resp ∧
    (∃ c, convert_response env resp = Ok (c, r) ∧ code = HStr c) ∧
    getitem resp "responseModel" = Ok response_model ∧
    at_keys r [HStr "schema"] =
      Some (if truthy response_model
            then schema_ref (py_str env response_model) else VNone).
Proof.
  intros Hsuffix Hget Hrun Hr.
  destruct (output_response env _ _ _ _ _ _ _ Hsuffix Hget Hrun Hr)
    as (parsed & entries & resp & c & Hparsed & Hentries & Hsrc & Hresp & ->).
  pose proof Hresp as Hresp'.
  apply convert_response_Ok in Hresp'
    as (d & code & message & response_model & -> & Hc & Hm & Hrm & -> & ->).
  exists parsed, entries, (VDict d), response_model.
  repeat split; try done.
  - by eexists.
  - unfold getitem, subscript. simpl. by rewrite Hrm.
Qed.

(** The response message 200 of [Scenario.answers]. *)
Lemma response_schema_witness :
  ∃ r response_model,
    at_keys (output answers)
      [HStr "paths"; HStr "/pet/{id}"; HStr "get"; HStr "responses"; HStr "200"]
      = Some r ∧
    at_keys r [HStr "schema"] =
      Some (if truthy response_model
            then schema_ref (py_str (Concrete.env answers) response_model)
            else VNone).
Proof.
  eexists. 
  destruct (response_schema (Concrete.env answers) origin (input answers)
              (output answers) "/pet/{id}" "get" "200" _
              ltac:(by_run) ltac:(by_run) ltac:(by_run) ltac:(by_run))
    as (parsed & entries & resp & response_model & _ & _ & _ & _ & _ & Hschema).
  exists response_model. split; [by_run | exact Hschema].
Defined.

(** C2 as stated fails: the response messages 404 and 500 of
    [Scenario.answers] have an empty and a null [responseModel], and their
    response objects have the [schema] key, holding null. *)
Lemma response_schema_counterexample :
  ∃ out,
    run answers = Ok out ∧
    at_keys out [HStr "paths"; HStr "/pet/{id}"; HStr "get"; HStr "responses";
                 HStr "404"; HStr "schema"] = Some VNone ∧
    at_keys out [HStr "paths"; HStr "/pet/{id}"; HStr "get"; HStr "responses";
                 HStr "500"; HStr "schema"] = Some VNone.
Proof. eexists. split; [by_run|]. by split. Qed.

(** ** The [required] key of a definition *)

(** C3 (as amended).  With unique model names, the output definition of a
    model always has the [required] key: its value is null when no
    property of the model carries a truthy [required] flag, and otherwise
    the list of the required property names in source order. *)
Theorem required_key (env : Env) (url : string) (input out : value)
    (models : dict) (name : hkey) (props : dict) :
  endswith url "api-docs" = true →
  http_get env url = Some input →
  convert_swagger_12_to_20 env url = Ok out →
  at_keys input [HStr "models"] = Some (VDict models) →
  dict_wf models →
  at_keys (VDict models) [name; HStr "properties"] = Some (VDict props) →
  at_keys out [HStr "definitions"; name; HStr "required"] =
    Some (match required_names props with
          | [] => VNone
          | names => VList names
          end).
Proof.
  intros Hsuffix Hget Hrun Hmodels Hwf Hprops.
  destruct (convert_Ok env _ _ _ Hsuffix Hget Hrun)
    as (parsed & root & info & entries & st & models' & definitions & ps
        & Hparsed & -> & Hinfo & Hentries & Hloop & Hmodels' & Hdefs
        & Hclean & ->).
  simpl in Hmodels, Hprops.
  destruct (Dict.get root "models") as [mv|] eqn:Hmv; [|done].
  simpl in Hmodels. injection Hmodels as ->.
  unfold Dict.get_default in Hmodels'. rewrite Hmv in Hmodels'.
  simpl in Hmodels'. injection Hmodels' as <-.
  destruct (Dict.get models name) as [model_def|] eqn:Hname; [|done].
  simpl in Hprops. destruct model_def as [| | | | |d]; try done.
  destruct (Dict.get d "properties") as [pv|] eqn:Hpv; [|done].
  simpl in Hprops. injection Hprops as ->.
  destruct (definitions_get env _ _ _ _ _ Hdefs Hwf Hname)
    as (definition & Hdef & Hget_def).
  change (at_keys _ [HStr "definitions"; name; HStr "required"])
    with (Dict.get definitions name ≫= λ v, at_keys v [HStr "required"]).
  rewrite Hget_def. simpl.
  by apply (convert_model_required env d).
Qed.

(** The two models of [Scenario.models]. *)
Lemma required_key_witness :
  at_keys (output models) [HStr "definitions"; HStr "Pet"; HStr "required"]
    = Some (VList [VStr "id"]) ∧
  at_keys (output models) [HStr "definitions"; HStr "Tag"; HStr "required"]
    = Some VNone.
Proof.
  split.
  - exact (required_key (Concrete.env models) origin (input models)
             (output models) _ "Pet" _
             ltac:(by_run) ltac:(by_run) ltac:(by_run) ltac:(by_run)
             ltac:(by_wf) ltac:(by_run)).
  - exact (required_key (Concrete.env models) origin (input models)
             (output models) _ "Tag" _
             ltac:(by_run) ltac:(by_run) ltac:(by_run) ltac:(by_run)
             ltac:(by_wf) ltac:(by_run)).
Defined.

(** C3 as stated fails: the model [Tag] of [Scenario.models] has no
    required property, and its definition has the [required] key, holding
    null. *)
Lemma required_key_counterexample :
  ∃ out,
    run models = Ok out ∧
    at_keys out [HStr "definitions"; HStr "Tag"; HStr "required"] = Some VNone.
Proof. eexists. split; [by_run|]. done. Qed.

(** ** Tags *)

(** C4 (as amended).  The [tags] list of the output has one entry for each
    reference that is the first with its tag name, in source order, with
    that name and that reference's description; so it has as many entries
    as there are distinct tag names.  The tag name of a reference is the
    final segment of its path with every occurrence of ["-controller"]
    removed. *)
Theorem tags_first_seen (env : Env) (url : string) (input out : value) :
  endswith url "api-docs" = true →
  http_get env url = Some input →
  convert_swagger_12_to_20 env url = Ok out →
  ∃ entries refs tags,
    api_entries_of input = Ok entries ∧
    mapM api_reference entries = Ok refs ∧
    at_keys out [HStr "tags"] = Some (VList tags) ∧
    Forall2 tag_of tags (first_seen ∅ refs) ∧
    length tags = size (list_to_set refs.*1 : gset string).
Proof.
  intros Hsuffix Hget Hrun.
  destruct (convert_Ok env _ _ _ Hsuffix Hget Hrun)
    as (parsed & root & info & entries & st & models & definitions & ps
        & Hparsed & -> & Hinfo & Hentries & Hloop & Hmodels & Hdefs
        & Hclean & ->).
  destruct (run_tags env _ _ _ _ Hloop) as (refs & new & Hrefs & Htags & Hnew).
  simpl in Htags, Hnew.
  exists entries, refs, new. repeat split; try done.
  - by rewrite Htags.
  - rewrite (Forall2_length _ _ _ Hnew). apply first_seen_length.
Qed.

(** The four references of [Scenario.references] have three distinct tag
    names. *)
Lemma tags_first_seen_witness :
  ∃ tags,
    at_keys (output references) [HStr "tags"] = Some (VList tags) ∧
    length tags = 3%nat.
Proof.
  destruct (tags_first_seen (Concrete.env references) origin (input references)
              (output references) ltac:(by_run) ltac:(by_run) ltac:(by_run))
    as (entries & refs & tags & Hentries & Hrefs & Htags & _ & Hlength).
  vm_compute in Hentries. injection Hentries as <-.
  vm_compute in Hrefs. injection Hrefs as <-.
  exists tags. split; [exact Htags | exact Hlength].
Defined.

(** C4 as stated fails: the last segment of the reference
    [/pet-controller-v2] of [Scenario.references] has no trailing
    ["-controller"], so the claim names its tag [pet-controller-v2]; the
    output has no tag of that name and names it [pet-v2]. *)
Lemma tag_name_counterexample :
  ∃ out tags,
    run references = Ok out ∧
    at_keys out [HStr "tags"] = Some (VList tags) ∧
    spec_tag_name "/pet-controller-v2" = "pet-controller-v2" ∧
    (∀ description,
       tag_entry (spec_tag_name "/pet-controller-v2") description ∉ tags) ∧
    tag_entry "pet-v2" (VStr "Newer pets") ∈ tags.
Proof.
  eexists _, _. split; [by_run|]. split; [by_run|]. split; [by_run|]. split.
  - intros description Hin. vm_compute in Hin.
    repeat (apply elem_of_cons in Hin as [Hin|Hin]; [discriminate Hin|]).
    by apply elem_of_nil in Hin.
  - vm_compute. do 2 right. left.
Qed.

(** ** Last write wins *)

(** C5.  The operations of the fetched declarations write to
    [paths[path][method]] in source order; the entry the output has there
    is the operation object of the last write to that pair, after the
    clean-up pass, and nothing of an earlier write to the pair. *)
Theorem last_write_wins (env : Env) (url : string) (input out : value) :
  endswith url "api-docs" = true →
  http_get env url = Some input →
  convert_swagger_12_to_20 env url = Ok out →
  ∃ parsed entries writes,
    urlparse env url = Ok parsed ∧
    api_entries_of input = Ok entries ∧
    run_writes env (base_url_of parsed) entries = Ok writes ∧
    ∀ before p method operation_obj after,
      writes = (before ++ (p, method, operation_obj) :: after)%list →
      (∀ c, c ∈ after → ¬ (c.1.1 = p ∧ c.1.2 = method)) →
      ∃ o', cleanup_operation operation_obj = Ok o' ∧
            at_keys out [HStr "paths"; p; HStr method] = Some (VDict o').
Proof.
  intros Hsuffix Hget Hrun.
  destruct (convert_paths env _ _ _ Hsuffix Hget Hrun)
    as (parsed & entries & cs & Hparsed & Hentries & Hcs & Hpaths).
  exists parsed, entries, cs. repeat split; try done.
  intros before p method operation_obj after -> Hafter.
  specialize (Hpaths p (HStr method)).
  by rewrite (last_write_last _ _ _ _ _ Hafter) in Hpaths.
Qed.

(** Of the two controllers of [Scenario.clash] that declare [GET /pet], the
    second one is in the output. *)
Lemma last_write_wins_witness :
  ∃ o',
    at_keys (output clash) [HStr "paths"; HStr "/pet"; HStr "get"]
      = Some (VDict o') ∧
    Dict.get o' "summary" = Some (VStr "second").
Proof.
  destruct (last_write_wins (Concrete.env clash) origin (input clash)
              (output clash) ltac:(by_run) ltac:(by_run) ltac:(by_run))
    as (parsed & entries & writes & Hparsed & Hentries & Hwrites & Hlast).
  vm_compute in Hparsed. injection Hparsed as <-.
  vm_compute in Hentries. injection Hentries as <-.
  vm_compute in Hwrites. injection Hwrites as <-.
  destruct (Hlast [_] _ _ _ [] eq_refl) as (o' & Hclean & Hat).
  { by intros c ?%elem_of_nil. }
  vm_compute in Hclean. injection Hclean as <-.
  eexists. split; [exact Hat | reflexivity].
Defined.

(** ** The [description] of a response *)

(** C6 (as amended).  Every response object of the output has the
    description ["No description"] when the [message] of its response
    message is present and falsy (an empty string, null), and the message
    itself when it is truthy; a response message with its [code], [message]
    and [responseModel] keys is always translated, whatever the message;
    one without the [message] key raises [KeyError]. *)
Theorem response_description (env : Env) :
  (∀ url input out p m code r,
     endswith url "api-docs" = true →
     http_get env url = Some input →
     convert_swagger_12_to_20 env url = Ok out →
     at_keys out [HStr "paths"; p; m; HStr "responses"; code] = Some r →
     ∃ parsed entries resp message,
       urlparse env url = Ok parsed ∧
       api_entries_of input = Ok entries ∧
       source_response env (base_url_of parsed) entries resp ∧
       (∃ c, convert_response env resp = Ok (c, r) ∧ code = HStr c) ∧
       getitem resp "message" = Ok message ∧
       at_keys r [HStr "description"] =
         Some (if truthy message then message else VStr "No description")) ∧
  (∀ d code message response_model,
     Dict.get d "code" = Some code →
     Dict.get d "message" = Some message →
     Dict.get d "responseModel" = Some response_model →
     ∃ r, convert_response env (VDict d) = Ok (py_str env code, r) ∧
          at_keys r [HStr "description"] =
            Some (if truthy message then message else VStr "No description")) ∧
  (∀ d code,
     Dict.get d "code" = Some code →
     Dict.get d "message" = None →
     convert_response env (VDict d) = Raise (KeyError "message")).
Proof.
  split; [|split].
  - intros url input out p m code r Hsuffix Hget Hrun Hr.
    destruct (output_response env _ _ _ _ _ _ _ Hsuffix Hget Hrun Hr)
      as (parsed & entries & resp & c & Hparsed & Hentries & Hsrc & Hresp & ->).
    pose proof Hresp as Hresp'.
    apply convert_response_Ok in Hresp'
      as (d & code & message & response_model & -> & Hc & Hm & Hrm & -> & ->).
    exists parsed, entries, (VDict d), message.
    repeat split; try done.
    + by eexists.
    + unfold getitem, subscript. simpl. by rewrite Hm.
  - intros d code message response_model Hc Hm Hrm.
    eexists. split.
    + apply convert_response_Ok. by eexists _, _, _, _.
    + reflexivity.
  - intros d code Hc Hm. unfold convert_response, subscript. simpl.
    by rewrite Hc, Hm.
Qed.

(** The response messages 404 and 500 of [Scenario.answers], and a
    response message without [message]. *)
Lemma response_description_witness :
  (∃ r message,
     at_keys (output answers)
       [HStr "paths"; HStr "/pet/{id}"; HStr "get"; HStr "responses"; HStr "404"]
       = Some r ∧
     at_keys r [HStr "description"] =
       Some (if truthy message then message else VStr "No description")) ∧
  (∃ r,
     convert_response (Concrete.env answers)
       (VDict [ (HStr "code", VInt 500); (HStr "message", VNone);
                (HStr "responseModel", VNone) ]) = Ok ("500", r) ∧
     at_keys r [HStr "description"] = Some (VStr "No description")) ∧
  convert_response (Concrete.env no_message)
    (VDict [ (HStr "code", VInt 200); (HStr "responseModel", VStr "Pet") ])
  = Raise (KeyError "message").
Proof.
  destruct (response_description (Concrete.env answers)) as (Hout & Htotal & _).
  destruct (response_description (Concrete.env no_message)) as (_ & _ & Hkey).
  split; [|split].
  - destruct (Hout origin (input answers) (output answers) "/pet/{id}" "get"
                "404" _ ltac:(by_run) ltac:(by_run) ltac:(by_run) ltac:(by_run))
      as (parsed & entries & resp & message & _ & _ & _ & _ & _ & Hdescription).
    eexists _, message. split; [by_run | exact Hdescription].
  - exact (Htotal [ (HStr "code", VInt 500); (HStr "message", VNone);
                    (HStr "responseModel", VNone) ]
             (VInt 500) VNone VNone eq_refl eq_refl eq_refl).
  - exact (Hkey [ (HStr "code", VInt 200); (HStr "responseModel", VStr "Pet") ]
             (VInt 200) eq_refl eq_refl).
Defined.

(** C6 as stated fails: the response message of [Scenario.no_message] has
    no [message] key, and the conversion raises [KeyError] for it. *)
Lemma missing_message_counterexample :
  run no_message = Raise (KeyError "message").
Proof. by_run. Qed.

(** ** Empty [parameters] and [responses] *)

(** C7.  Every operation object of the output is the cleaned-up object of
    an operation of a fetched declaration: its [parameters] key is absent
    when the translated parameter list is empty and holds that list
    otherwise, its [responses] key is absent when the translated responses
    mapping is empty and holds that mapping otherwise; so neither key ever
    holds an empty collection. *)
Theorem empty_collections_dropped (env : Env) (url : string)
    (input out : value) (p m : hkey) (v : value) :
  endswith url "api-docs" = true →
  http_get env url = Some input →
  convert_swagger_12_to_20 env url = Ok out →
  at_keys out [HStr "paths"; p; m] = Some v →
  (∃ parsed entries tag url_template operation me summary notes parameters
     responses consumes produces,
     urlparse env url = Ok parsed ∧
     api_entries_of input = Ok entries ∧
     source_operation env (base_url_of parsed) entries tag url_template
       operation ∧
     convert_operation env tag operation =
       Ok (me, operation_object tag summary notes parameters responses
                 consumes produces) ∧
     at_keys v [HStr "parameters"] =
       match parameters with [] => None | _ => Some (VList parameters) end ∧
     at_keys v [HStr "responses"] =
       match responses with [] => None | _ => Some (VDict responses) end) ∧
  at_keys v [HStr "parameters"] ≠ Some (VList []) ∧
  at_keys v [HStr "responses"] ≠ Some (VDict []).
Proof.
  intros Hsuffix Hget Hrun Hv.
  destruct (output_operation env _ _ _ _ _ _ Hsuffix Hget Hrun Hv)
    as (parsed & entries & tag & url_template & operation & me & o & o'
        & Hparsed & Hentries & Hsrc & Hkey & -> & Hop & Hclean & ->).
  pose proof Hop as Hop'.
  apply convert_operation_Ok in Hop'
    as (od & s & params & parameters & resps & responses & summary & notes
        & consumes & produces & -> & Hmethod & -> & Hparams & Hparameters
        & Hresps & Hresponses & ->).
  destruct (cleanup_operation_object tag summary notes parameters responses
              consumes produces) as (o'' & Hclean' & Hps & Hrs).
  rewrite Hclean in Hclean'. injection Hclean' as <-.
  assert (at_keys (VDict o') [HStr "parameters"] =
            match parameters with [] => None | _ => Some (VList parameters) end)
    as Hps'.
  { simpl. rewrite Hps. by destruct parameters. }
  assert (at_keys (VDict o') [HStr "responses"] =
            match responses with [] => None | _ => Some (VDict responses) end)
    as Hrs'.
  { simpl. rewrite Hrs. by destruct responses. }
  split; [|split].
  - by exists parsed, entries, tag, url_template, (VDict od),
      (str_lower env s), summary, notes, parameters, responses, consumes,
      produces.
  - rewrite Hps'. by destruct parameters.
  - rewrite Hrs'. by destruct responses.
Qed.

(** The operation of scenario A has no parameters and no responses. *)
Lemma empty_collections_dropped_witness :
  ∃ v,
    at_keys (output pets) [HStr "paths"; HStr "/pet"; HStr "get"] = Some v ∧
    at_keys v [HStr "parameters"] ≠ Some (VList []) ∧
    at_keys v [HStr "responses"] ≠ Some (VDict []).
Proof.
  eexists. split; [by_run|].
  exact (proj2 (empty_collections_dropped (Concrete.env pets) origin
                  (input pets) (output pets) "/pet" "get" _
                  ltac:(by_run) ltac:(by_run) ltac:(by_run) ltac:(by_run))).
Defined.

(** ** A declaration that does not resolve *)

(** C8.  When the declaration of one API reference does not resolve, the
    loop over the references goes on as if that reference had only taken
    its tag step: the references before and after it are processed as
    usual, the reference writes nothing to [paths], and the output of a
    run that returns has a tag entry with the reference's tag name. *)
Theorem failed_fetch_is_not_fatal (env : Env) (url : string)
    (input : value) (parsed : parse_result) (before after : list value)
    (d : dict) (path : string) :
  endswith url "api-docs" = true →
  http_get env url = Some input →
  urlparse env url = Ok parsed →
  api_entries_of input = Ok (before ++ VDict d :: after)%list →
  Dict.get d "path" = Some (VStr path) →
  http_get env (base_url_of parsed ++ path) = None →
  let step := process_api_entry env (base_url_of parsed) in
  (∀ st,
     for_each step (before ++ VDict d :: after)%list st =
     st1 ← for_each step before st;
     st2 ← add_tag st1 (tag_name_of path) d;
     for_each step after st2) ∧
  (∀ st1 st2,
     add_tag st1 (tag_name_of path) d = Ok st2 → paths st2 = paths st1) ∧
  entry_writes env (base_url_of parsed) (VDict d) = Ok [] ∧
  (∀ out,
     convert_swagger_12_to_20 env url = Ok out →
     ∃ tags description,
       at_keys out [HStr "tags"] = Some (VList tags) ∧
       tag_entry (tag_name_of path) description ∈ tags).
Proof.
  intros Hsuffix Hget Hparsed Hentries Hpath Hfail step.
  split; [|split; [|split]].
  - intros st. rewrite for_each_app. simpl. unfold step at 2.
    destruct (for_each step before st) as [st1|]; simpl; [|done].
    by rewrite (process_unresolved env _ _ _ _ Hpath Hfail).
  - intros st1 st2. apply add_tag_paths.
  - unfold entry_writes, subscript. simpl. rewrite Hpath. simpl.
    by rewrite (fetch_failed env _ _ Hfail).
  - intros out Hrun.
    destruct (convert_Ok env _ _ _ Hsuffix Hget Hrun)
      as (parsed' & root & info & entries & st & models & definitions & ps
          & Hparsed' & -> & Hinfo & Hentries' & Hloop & Hmodels & Hdefs
          & Hclean & ->).
    assert (parsed' = parsed) as -> by congruence.
    assert (entries = (before ++ VDict d :: after)%list) as ->.
    { unfold api_entries_of, getitem in Hentries. simpl in Hentries.
      congruence. }
    destruct (run_tag_present env _ _ _ d path Hloop) as [description Hin];
      [|done|].
    { apply elem_of_app. right. left. }
    by exists (tags st), description.
Qed.

(** The second of the three references of [Scenario.outage] does not
    resolve; the third one still writes its operation. *)
Lemma failed_fetch_is_not_fatal_witness :
  entry_writes (Concrete.env outage) "http://host/v1/api-docs/"
    (reference "/store-controller" "Store") = Ok [] ∧
  ∃ tags description,
    at_keys (output outage) [HStr "tags"] = Some (VList tags) ∧
    tag_entry "store" description ∈ tags ∧
    is_Some (at_keys (output outage) [HStr "paths"; HStr "/user"; HStr "post"]).
Proof.
  destruct (failed_fetch_is_not_fatal (Concrete.env outage) origin
              (input outage)
              {| url_scheme := "http"; url_netloc := "host";
                 url_path := "/v1/api-docs" |}
              [reference "/pet-controller" "Pets"]
              [reference "/user-controller" "Users"]
              [ (HStr "path", VStr "/store-controller");
                (HStr "description", VStr "Store") ]
              "/store-controller"
              ltac:(by_run) ltac:(by_run) ltac:(by_run) ltac:(by_run)
              ltac:(by_run) ltac:(by_run))
    as (_ & _ & Hwrites & Htag).
  split; [exact Hwrites|].
  destruct (Htag (output outage) ltac:(by_run))
    as (tags & description & Htags & Hin).
  exists tags, description. split; [exact Htags|]. split; [exact Hin|].
  by eexists.
Defined.

(** ** Fatal structural errors *)

(** C9.  When the resource listing has no top-level [info] or no top-level
    [apis], the conversion raises an exception and returns no document: a
    [KeyError] for [info] when that is missing, and a [KeyError] for [apis]
    when [info] is a dictionary and [apis] is missing. *)
Theorem missing_root_field_is_fatal (env : Env) (url : string) (root : dict) :
  endswith url "api-docs" = true →
  http_get env url = Some (VDict root) →
  Dict.get root "info" = None ∨ Dict.get root "apis" = None →
  (∃ e, convert_swagger_12_to_20 env url = Raise e) ∧
  (∀ parsed, urlparse env url = Ok parsed →
     (Dict.get root "info" = None →
      convert_swagger_12_to_20 env url = Raise (KeyError "info")) ∧
     (∀ info, Dict.get root "info" = Some (VDict info) →
      convert_swagger_12_to_20 env url = Raise (KeyError "apis"))).
Proof.
  intros Hsuffix Hget Hmissing. split; [|intros parsed Hparsed; split].
  - destruct (convert_swagger_12_to_20 env url) as [out|e] eqn:Hrun; [|eauto].
    destruct (convert_Ok env _ _ _ Hsuffix Hget Hrun)
      as (parsed & root' & info & entries & st & models & definitions & ps
          & Hparsed & [= <-] & Hinfo & Hentries & _).
    apply bind_Ok in Hentries as (apis & Hapis%subscript_Ok & _).
    destruct Hmissing; congruence.
  - intros Hinfo. unfold convert_swagger_12_to_20, subscript.
    rewrite Hsuffix, Hget, Hparsed. simpl. by rewrite Hinfo.
  - intros info Hinfo. destruct Hmissing as [|Hapis]; [congruence|].
    unfold convert_swagger_12_to_20, subscript.
    rewrite Hsuffix, Hget, Hparsed. simpl. rewrite Hinfo. simpl.
    by rewrite Hapis.
Qed.

(** A listing without [info], and one without [apis]. *)
Lemma missing_root_field_is_fatal_witness :
  Scenario.run Scenario.no_info = Raise (KeyError "info") ∧
  Scenario.run Scenario.no_apis = Raise (KeyError "apis").
Proof.
  split.
  - refine (proj1 (proj2 (missing_root_field_is_fatal
              (Concrete.env Scenario.no_info) Scenario.origin _ _ _ _) _ _) _);
      try reflexivity.
    by left.
  - refine (proj2 (proj2 (missing_root_field_is_fatal
              (Concrete.env Scenario.no_apis) Scenario.origin _ _ _ _) _ _) _ _);
      try reflexivity.
    by right.
Defined.

(** ** Method keys *)

(** C10.  Every method key of the output's [paths] is the lower-cased
    method string of the operation whose object is stored under it. *)
Theorem method_key_lowercased (env : Env) (url : string) (input out : value)
    (p m : hkey) (v : value) :
  endswith url "api-docs" = true →
  http_get env url = Some input →
  convert_swagger_12_to_20 env url = Ok out →
  at_keys out [HStr "paths"; p; m] = Some v →
  ∃ parsed entries tag url_template operation method o o',
    urlparse env url = Ok parsed ∧
    api_entries_of input = Ok entries ∧
    source_operation env (base_url_of parsed) entries tag url_template
      operation ∧
    hashable url_template = Ok p ∧
    getitem operation "method" = Ok (VStr method) ∧
    m = HStr (str_lower env method) ∧
    convert_operation env tag operation = Ok (str_lower env method, o) ∧
    cleanup_operation o = Ok o' ∧
    v = VDict o'.
Proof.
  intros Hsuffix Hget Hrun Hv.
  destruct (output_operation env _ _ _ _ _ _ Hsuffix Hget Hrun Hv)
    as (parsed & entries & tag & url_template & operation & me & o & o'
        & Hparsed & Hentries & Hsrc & Hkey & -> & Hop & Hclean & ->).
  pose proof Hop as Hop'.
  apply convert_operation_Ok in Hop'
    as (od & s & params & parameters & resps & responses & summary & notes
        & consumes & produces & -> & Hmethod & -> & _).
  exists parsed, entries, tag, url_template, (VDict od), s, o, o'.
  repeat split; try done.
  unfold getitem, subscript. simpl. by rewrite Hmethod.
Qed.

(** The operation of scenario A has the method ["GET"], stored under
    ["get"]. *)
Lemma method_key_lowercased_witness :
  ∃ operation,
    getitem operation "method" = Ok (VStr "GET") ∧
    HStr "get" = HStr (Concrete.lower "GET") ∧
    is_Some (at_keys (output pets) [HStr "paths"; HStr "/pet"; HStr "get"]).
Proof.
  destruct (method_key_lowercased (Concrete.env pets) origin (input pets)
              (output pets) "/pet" "get" _
              ltac:(by_run) ltac:(by_run) ltac:(by_run) ltac:(by_run))
    as (parsed & entries & tag & url_template & operation & method & o & o'
        & Hparsed & Hentries & Hsrc & _ & Hmethod & Hkey & _).
  vm_compute in Hparsed. injection Hparsed as <-.
  vm_compute in Hentries. injection Hentries as <-.
  destruct Hsrc as (d & path & endpoints & ed & operations & Hd & Hpath & _
                    & Hendpoints & Hed & _ & Hoperations & Hoperation).
  apply list_elem_of_singleton in Hd. injection Hd as ->.
  vm_compute in Hpath. injection Hpath as <-.
  vm_compute in Hendpoints. injection Hendpoints as <-.
  apply list_elem_of_singleton in Hed. injection Hed as ->.
  vm_compute in Hoperations. injection Hoperations as <-.
  apply list_elem_of_singleton in Hoperation.
  assert (method = "GET") as ->.
  { rewrite Hoperation in Hmethod. vm_compute in Hmethod.
    by injection Hmethod. }
  exists operation. split; [exact Hmethod|]. split; [exact Hkey|]. by eexists.
Defined.

(* ================================================================= *)
(** * Further properties *)

(** ** Strings *)

Lemma append_nil_l (s : string) : ("" ++ s)%string = s.
Proof. reflexivity. Qed.

Lemma append_cons (c : ascii) (a b : string) :
  (String c a ++ b)%string = String c (a ++ b)%string.
Proof. reflexivity. Qed.

Lemma rstrip_slash_spec (s : string) :
  (∃ n, s = (rstrip_slash s ++ slashes n)%string) ∧
  ∀ r, rstrip_slash s ≠ (r ++ "/")%string.
Proof.
  induction s as [|c s [[n Hn] Hend]]; simpl.
  - split; [by exists O|]. intros r Hr. by destruct r.
  - destruct (rstrip_slash s) as [|a r0] eqn:Hr.
    + rewrite append_nil_l in Hn. destruct (Ascii.eqb c slash) eqn:Hc.
      * apply Ascii.eqb_eq in Hc as ->. split; [|intros r Heq; by destruct r].
        exists (S n). rewrite append_nil_l. simpl. by rewrite Hn.
      * split; [exists n; rewrite append_cons, append_nil_l; by rewrite <- Hn|].
        intros [|b r] Heq.
        -- rewrite append_nil_l in Heq. injection Heq as ->.
           by rewrite Ascii.eqb_refl in Hc.
        -- rewrite append_cons in Heq. injection Heq as _ Heq.
           by destruct r.
    + split; [exists n; rewrite append_cons; by rewrite <- Hn|].
      intros [|b r] Heq.
      * rewrite append_nil_l in Heq. by injection Heq.
      * rewrite append_cons in Heq. injection Heq as _ Heq.
        by apply (Hend r).
Qed.

Lemma last_segment_from_slash (seg a b : string) :
  last_segment_from seg (a ++ String slash b) = last_segment b.
Proof.
  revert seg. induction a as [|c a IH]; intros seg.
  - by rewrite append_nil_l.
  - rewrite append_cons. simpl. destruct (Ascii.eqb c slash); apply IH.
Qed.

(** ** When nothing is returned or saved *)

(** X1.  The conversion returns the empty dictionary in exactly two cases:
    the URL does not end in ["api-docs"] (nothing is parsed or fetched), or
    the URL parses and the resource listing cannot be fetched.  Every other
    run raises or returns a document with keys. *)
Theorem empty_output_iff (env : Env) (url : string) :
  convert_swagger_12_to_20 env url = Ok (VDict []) ↔
  endswith url "api-docs" = false ∨
  (∃ parsed, urlparse env url = Ok parsed ∧ http_get env url = None).
Proof.
  split.
  - intros Hrun. destruct (endswith url "api-docs") eqn:Hsuffix; [|by left].
    right. destruct (http_get env url) as [input|] eqn:Hget.
    + destruct (convert_Ok env _ _ _ Hsuffix Hget Hrun)
        as (? & ? & ? & ? & ? & ? & ? & ? & _ & _ & _ & _ & _ & _ & _ & _ & [=]).
    + unfold convert_swagger_12_to_20 in Hrun. rewrite Hsuffix in Hrun.
      simpl in Hrun. destruct (urlparse env url) as [parsed|]; [|done].
      by exists parsed.
  - unfold convert_swagger_12_to_20.
    intros [->|(parsed & -> & ->)]; [done|]. simpl. by destruct (endswith _ _).
Qed.

Lemma convert_Ok_cases (env : Env) (url : string) (doc : value) :
  convert_swagger_12_to_20 env url = Ok doc →
  (doc = VDict [] ∧
   (endswith url "api-docs" = false ∨ http_get env url = None)) ∨
  (truthy doc = true ∧ endswith url "api-docs" = true ∧
   is_Some (http_get env url)).
Proof.
  intros Hrun. destruct (endswith url "api-docs") eqn:Hsuffix.
  - destruct (http_get env url) as [input|] eqn:Hget.
    + destruct (convert_Ok env _ _ _ Hsuffix Hget Hrun)
        as (? & ? & ? & ? & ? & ? & ? & ? & _ & _ & _ & _ & _ & _ & _ & _ & ->).
      right. by eauto.
    + left. unfold convert_swagger_12_to_20 in Hrun.
      rewrite Hsuffix, Hget in Hrun. simpl in Hrun.
      destruct (urlparse env url); [|done]. simpl in Hrun.
      injection Hrun as <-. by eauto.
  - left. unfold convert_swagger_12_to_20 in Hrun. rewrite Hsuffix in Hrun.
    injection Hrun as <-. by eauto.
Qed.

(** X2.  The script saves a document exactly when the stripped URL ends in
    ["api-docs"], the resource listing is fetched and the conversion returns
    that document; it saves nothing exactly when the conversion returns the
    empty dictionary; and it fails exactly when the conversion raises. *)
Theorem main_saves_iff (env : Env) (strip : string → string) (line : string) :
  let url := strip line in
  (∀ doc, main env strip line = Ok (Some doc) ↔
     endswith url "api-docs" = true ∧ is_Some (http_get env url) ∧
     convert_swagger_12_to_20 env url = Ok doc) ∧
  (main env strip line = Ok None ↔
     convert_swagger_12_to_20 env url = Ok (VDict [])) ∧
  (∀ e, main env strip line = Raise e ↔
     convert_swagger_12_to_20 env url = Raise e).
Proof.
  intros url. unfold main. fold url.
  destruct (convert_swagger_12_to_20 env url) as [out|e] eqn:Hrun; simpl.
  - destruct (convert_Ok_cases env url out Hrun)
      as [[-> Hwhy]|(Htruthy & Hsuffix & Hget)].
    + simpl. split; [|split].
      * intros doc. split; [done|].
        intros (Hsuffix & [input Hget] & _). destruct Hwhy; congruence.
      * done.
      * intros e. by split.
    + rewrite Htruthy. split; [|split].
      * intros doc. split; [by intros [= ->] | by intros (_ & _ & [= ->])].
      * split; [done|]. by intros [= ->].
      * intros e. by split.
  - split; [|split].
    + intros doc. split; [done | by intros (_ & _ & [=])].
    + by split.
    + intros e'. split; by intros [= ->].
Qed.

(** ** The fields around [paths] *)

(** X3.  A returned document has the eight keys of lines 43-52 in that
    order and the marker ["2.0"]; its [info] is the listing's [info] with
    [version] set to the listing's [apiVersion], or to ["1.0"] when the
    listing has none: a [version] the [info] block came with is overwritten,
    every other field of [info] is kept. *)
Theorem info_forwarded (env : Env) (url : string) (input out : value) :
  endswith url "api-docs" = true →
  http_get env url = Some input →
  convert_swagger_12_to_20 env url = Ok out →
  (∃ d, out = VDict d ∧
        Dict.keys d =
          [ HStr "swagger"; HStr "info"; HStr "host"; HStr "basePath";
            HStr "schemes"; HStr "paths"; HStr "definitions"; HStr "tags" ]) ∧
  at_keys out [HStr "swagger"] = Some (VStr "2.0") ∧
  at_keys out [HStr "info"; HStr "version"] =
    Some (default (VStr "1.0") (at_keys input [HStr "apiVersion"])) ∧
  ∀ k, k ≠ HStr "version" →
    at_keys out [HStr "info"; k] = at_keys input [HStr "info"; k].
Proof.
  intros Hsuffix Hget Hrun.
  destruct (convert_Ok env _ _ _ Hsuffix Hget Hrun)
    as (parsed & root & info & entries & st & models & definitions & ps
        & Hparsed & -> & Hinfo & Hentries & Hloop & Hmodels & Hdefs
        & Hclean & ->).
  split; [by eexists|]. split; [done|].
  assert (∀ k, at_keys (VDict root) [HStr "info"; k] = Dict.get info k)
    as Hin.
  { intros k. simpl. rewrite Hinfo. simpl. by destruct (Dict.get info k). }
  split.
  - change (at_keys _ [HStr "info"; HStr "version"])
      with (Dict.get (Dict.set info "version"
              (Dict.get_default root "apiVersion" (VStr "1.0"))) "version"
            ≫= λ v, Some v).
    rewrite get_set_eq. simpl. unfold Dict.get_default.
    by destruct (Dict.get root "apiVersion").
  - intros k Hk. rewrite Hin.
    change (at_keys _ [HStr "info"; k])
      with (Dict.get (Dict.set info "version"
              (Dict.get_default root "apiVersion" (VStr "1.0"))) k
            ≫= λ v, Some v).
    rewrite get_set_ne by done. by destruct (Dict.get info k).
Qed.

(** The [info] of [Cases.versions] says version 0.9 and the listing has no
    [apiVersion]: the output says ["1.0"] and keeps the title. *)
Lemma info_forwarded_witness :
  ∃ out,
    convert_swagger_12_to_20 (Concrete.env Cases.versions) origin = Ok out ∧
    at_keys out [HStr "info"; HStr "version"] = Some (VStr "1.0") ∧
    at_keys out [HStr "info"; HStr "title"] = Some (VStr "Pet store").
Proof.
  eexists. split; [by_run|].
  destruct (info_forwarded (Concrete.env Cases.versions) origin _ _
              ltac:(by_run) ltac:(by_run) ltac:(by_run))
    as (_ & _ & Hversion & Hother).
  split; [exact Hversion|]. exact (Hother (HStr "title") ltac:(discriminate)).
Defined.

(** X4.  The [basePath] of a returned document never ends with a slash: it
    is the path of the origin URL less the slashes that end it. *)
Theorem base_path_strips_slashes (env : Env) (url : string)
    (input out : value) :
  endswith url "api-docs" = true →
  http_get env url = Some input →
  convert_swagger_12_to_20 env url = Ok out →
  ∃ parsed base_path n,
    urlparse env url = Ok parsed ∧
    at_keys out [HStr "basePath"] = Some (VStr base_path) ∧
    url_path parsed = (base_path ++ slashes n)%string ∧
    ∀ r, base_path ≠ (r ++ "/")%string.
Proof.
  intros Hsuffix Hget Hrun.
  destruct (convert_Ok env _ _ _ Hsuffix Hget Hrun)
    as (parsed & root & info & entries & st & models & definitions & ps
        & Hparsed & -> & Hinfo & Hentries & Hloop & Hmodels & Hdefs
        & Hclean & ->).
  destruct (rstrip_slash_spec (url_path parsed)) as [[n Hn] Hend].
  by exists parsed, (rstrip_slash (url_path parsed)), n.
Qed.

(** The path of [Cases.slashed] is ["/v1//"]. *)
Lemma base_path_strips_slashes_witness :
  ∃ out n,
    convert_swagger_12_to_20
      (Concrete.env [(Cases.slashed, listing [])]) Cases.slashed = Ok out ∧
    at_keys out [HStr "basePath"] = Some (VStr "/v1") ∧
    "/v1//" = ("/v1" ++ slashes n)%string.
Proof.
  destruct (base_path_strips_slashes
              (Concrete.env [(Cases.slashed, listing [])]) Cases.slashed _ _
              ltac:(by_run) ltac:(by_run) ltac:(by_run))
    as (parsed & base_path & n & Hparsed & Hbase & Hpath & _).
  vm_compute in Hparsed. injection Hparsed as <-.
  vm_compute in Hbase. injection Hbase as <-.
  eexists _, n. split; [by_run|]. split; [by_run | exact Hpath].
Defined.

(** X5.  The tag name of a reference depends only on what follows the last
    slash of its path: references in different directories whose paths end
    alike get one tag. *)
Theorem tag_name_after_slash (directory segment : string) :
  tag_name_of (directory ++ "/" ++ segment) = tag_name_of segment.
Proof.
  unfold tag_name_of, last_segment.
  change ("/" ++ segment)%string with (String slash segment).
  by rewrite last_segment_from_slash.
Qed.

(** ** Loops that returned *)


Lemma for_each_Ok_each {S A : Type} (body : S → A → result S) (l : list A)
    (st st' : S) :
  for_each body l st = Ok st' → Forall (λ x, ∃ s s', body s x = Ok s') l.
Proof.
  revert st. induction l as [|x l IH]; intros st H; simpl in H.
  - constructor.
  - apply bind_Ok in H as (st1 & Hx & H). constructor; eauto.
Qed.

Lemma last_write_is_Some cs k me o :
  (k, me, o) ∈ cs → is_Some (last_write cs k (HStr me)).
Proof.
  induction cs as [|[[k' me'] o'] cs IH]; [by intros ?%elem_of_nil|].
  intros [[= -> -> ->]|Hin]%elem_of_cons; simpl.
  - destruct (last_write cs k' me'); [by eauto|].
    rewrite decide_True by done. by eauto.
  - destruct (IH Hin) as [later ->]. by eauto.
Qed.

Section more_operations.
Context (env : Env).

(** Every operation of a fetched declaration has its write in a run that
    went through. *)
Lemma run_writes_image base entries cs tag url_template operation :
  run_writes env base entries = Ok cs →
  source_operation env base entries tag url_template operation →
  ∃ c, c ∈ cs ∧ contribution env tag url_template operation = Ok c.
Proof.
  unfold run_writes. intros Hrun
    (d & path & endpoints & ed & operations & Hd & Hpath & -> & Hendpoints
     & Hed & Hurl & Hoperations & Hoperation).
  apply bind_Ok in Hrun as (css & Hcss & [= <-]).
  destruct (mapM_Ok_image _ _ _ _ Hcss Hd) as (cs1 & Hcs1 & Hentry).
  unfold entry_writes, subscript in Hentry. simpl in Hentry.
  rewrite Hpath in Hentry. simpl in Hentry. rewrite Hendpoints in Hentry.
  simpl in Hentry. apply bind_Ok in Hentry as (css2 & Hcss2 & [= <-]).
  destruct (mapM_Ok_image _ _ _ _ Hcss2 Hed) as (cs2 & Hcs2 & Hendpoint).
  apply subscript_Ok in Hurl.
  unfold endpoint_writes in Hendpoint. simpl in Hendpoint.
  rewrite Hurl in Hendpoint. simpl in Hendpoint.
  rewrite Hoperations in Hendpoint. simpl in Hendpoint.
  destruct (mapM_Ok_image _ _ _ _ Hendpoint Hoperation) as (c & Hc & Hcontrib).
  exists c. split; [|done].
  apply elem_of_concat. exists (concat css2). split; [done|].
  apply elem_of_concat. by exists cs2.
Qed.

(** What [convert_operation] read when it returned. *)
Lemma convert_operation_inv tag operation me o :
  convert_operation env tag operation = Ok (me, o) →
  ∃ od method params parameters resps responses summary notes consumes
    produces,
    operation = VDict od ∧
    Dict.get od "method" = Some (VStr method) ∧
    me = str_lower env method ∧
    py_iter (Dict.get_default od "parameters" (VList [])) = Ok params ∧
    mapM (convert_param env) params = Ok parameters ∧
    py_iter (Dict.get_default od "responseMessages" (VList [])) = Ok resps ∧
    for_each (add_response env) resps [] = Ok responses ∧
    Dict.get od "summary" = Some summary ∧
    Dict.get od "notes" = Some notes ∧
    Dict.get od "consumes" = Some consumes ∧
    Dict.get od "produces" = Some produces ∧
    o = operation_object tag summary notes parameters responses
          consumes produces.
Proof.
  unfold convert_operation. intros H. inv_ok.
  by eexists _, _, _, _, _, _, _, _, _, _.
Qed.

(** The clean-up pass leaves the other five keys alone. *)
Lemma cleanup_operation_object_fields tag summary notes parameters responses
    consumes produces o' :
  cleanup_operation
    (operation_object tag summary notes parameters responses
       consumes produces) = Ok o' →
  Dict.get o' "tags" = Some (VList [VStr tag]) ∧
  Dict.get o' "summary" = Some summary ∧
  Dict.get o' "description" = Some notes ∧
  Dict.get o' "consumes" = Some consumes ∧
  Dict.get o' "produces" = Some produces.
Proof.
  destruct parameters, responses; intros [= <-]; by repeat split.
Qed.

Lemma convert_param_rule param spec :
  convert_param env param = Ok spec →
  ∃ d, param = VDict d ∧
       has_keys d ["name"; "paramType"; "required"] ∧
       param_rule env d spec.
Proof.
  unfold convert_param. intros H. inv_ok.
  match goal with H : Dict.get_default _ _ _ = VStr ?ty |- _ =>
    rename H into Htype; rename ty into type end.
  eexists. split; [done|]. split.
  { repeat constructor; by eauto. }
  unfold param_rule.
  destruct (Dict.mem _ "format") eqn:Hformat.
  - inv_ok. rew_ok. repeat split; try done.
    exists type. split; [done|done].
  - inv_ok. apply mem_false in Hformat. rewrite Hformat. rew_ok.
    repeat split; try done. exists type. by split.
Qed.

(** The [responses] mapping holds, under each code, the translation of the
    last response message written with that code. *)
Lemma responses_last resps acc responses code :
  for_each (add_response env) resps acc = Ok responses →
  Dict.get responses code =
    match last_response env resps code with
    | Some r => Some r
    | None => Dict.get acc code
    end.
Proof.
  revert acc. induction resps as [|resp resps IH]; intros acc H; simpl in H.
  - by inv_ok.
  - apply bind_Ok in H as (acc1 & Hstep & H). rewrite (IH _ H). simpl.
    destruct (last_response env resps code); [done|].
    unfold add_response in Hstep.
    apply bind_Ok in Hstep as ([c r] & -> & [= <-]).
    rewrite get_set. by case_decide.
Qed.
End more_operations.

(** ** What is in an operation object *)

(** X6.  Every operation object of the output carries the tag name of its
    controller as its only tag, and the [summary], [notes] (as
    [description]), [consumes] and [produces] of its source operation as
    they are. *)
Theorem operation_fields_copied (env : Env) (url : string)
    (input out : value) (p m : hkey) (v : value) :
  endswith url "api-docs" = true →
  http_get env url = Some input →
  convert_swagger_12_to_20 env url = Ok out →
  at_keys out [HStr "paths"; p; m] = Some v →
  ∃ parsed entries tag url_template od,
    urlparse env url = Ok parsed ∧
    api_entries_of input = Ok entries ∧
    source_operation env (base_url_of parsed) entries tag url_template
      (VDict od) ∧
    at_keys v [HStr "tags"] = Some (VList [VStr tag]) ∧
    at_keys v [HStr "summary"] = Dict.get od "summary" ∧
    at_keys v [HStr "description"] = Dict.get od "notes" ∧
    at_keys v [HStr "consumes"] = Dict.get od "consumes" ∧
    at_keys v [HStr "produces"] = Dict.get od "produces".
Proof.
  intros Hsuffix Hget Hrun Hv.
  destruct (output_operation env _ _ _ _ _ _ Hsuffix Hget Hrun Hv)
    as (parsed & entries & tag & url_template & operation & me & o & o'
        & Hparsed & Hentries & Hsrc & Hkey & -> & Hop & Hclean & ->).
  apply convert_operation_inv in Hop
    as (od & method & params & parameters & resps & responses & summary
        & notes & consumes & produces & -> & Hmethod & -> & _ & _ & _ & _
        & Hsummary & Hnotes & Hconsumes & Hproduces & ->).
  apply cleanup_operation_object_fields in Hclean
    as (Htags & Hs & Hd & Hc & Hp).
  exists parsed, entries, tag, url_template, od.
  simpl. rewrite Htags, Hs, Hd, Hc, Hp, Hsummary, Hnotes, Hconsumes, Hproduces.
  by repeat split.
Qed.

(** The operation of [Cases.store] that adds a pet. *)
Lemma operation_fields_copied_witness :
  ∃ v tag,
    at_keys (output Cases.store) [HStr "paths"; HStr "/pet"; HStr "post"]
      = Some v ∧
    at_keys v [HStr "tags"] = Some (VList [VStr tag]).
Proof.
  destruct (operation_fields_copied (Concrete.env Cases.store) origin
              (input Cases.store) (output Cases.store) "/pet" "post" _
              ltac:(by_run) ltac:(by_run) ltac:(by_run) ltac:(by_run))
    as (parsed & entries & tag & url_template & od & _ & _ & _ & Htags & _).
  eexists _, tag. split; [by_run | exact Htags].
Defined.

(** X7.  The [parameters] list of an operation object of the output holds
    the translations of the source operation's parameters, one each and in
    source order; each translation copies [name], [paramType] (as [in]) and
    [required], defaults [description] to the empty string and [type] to
    ["string"], lower-cases [type], and has a [format] exactly when the
    parameter has one. *)
Theorem parameters_translated (env : Env) (url : string)
    (input out : value) (p m : hkey) (pv : value) :
  endswith url "api-docs" = true →
  http_get env url = Some input →
  convert_swagger_12_to_20 env url = Ok out →
  at_keys out [HStr "paths"; p; m; HStr "parameters"] = Some pv →
  ∃ parsed entries tag url_template od params specs,
    urlparse env url = Ok parsed ∧
    api_entries_of input = Ok entries ∧
    source_operation env (base_url_of parsed) entries tag url_template
      (VDict od) ∧
    py_iter (Dict.get_default od "parameters" (VList [])) = Ok params ∧
    pv = VList specs ∧
    Forall2 (λ param spec, ∃ d, param = VDict d ∧ param_rule env d spec)
      params specs.
Proof.
  intros Hsuffix Hget Hrun Hpv.
  change [HStr "paths"; p; m; HStr "parameters"]
    with ([HStr "paths"; p; m] ++ [HStr "parameters"])%list in Hpv.
  rewrite at_keys_app in Hpv.
  destruct (at_keys out [HStr "paths"; p; m]) as [v|] eqn:Hv; [|done].
  simpl in Hpv.
  destruct (output_operation env _ _ _ _ _ _ Hsuffix Hget Hrun Hv)
    as (parsed & entries & tag & url_template & operation & me & o & cleaned
        & Hparsed & Hentries & Hsrc & Hkey & -> & Hop & Hclean & ->).
  apply convert_operation_inv in Hop
    as (od & method & params & parameters & resps & responses & summary
        & notes & consumes & produces & -> & Hmethod & -> & Hparams
        & Hparameters & _ & _ & _ & _ & _ & _ & ->).
  destruct (cleanup_operation_object tag summary notes parameters responses
              consumes produces) as (cleaned2 & Hclean2 & Hps & _).
  rewrite Hclean in Hclean2. injection Hclean2 as <-.
  rewrite Hps in Hpv.
  assert (pv = VList parameters) as ->.
  { destruct parameters; [done|]. simpl in Hpv. by injection Hpv. }
  exists parsed, entries, tag, url_template, od, params, parameters.
  repeat split; try done.
  apply mapM_Ok in Hparameters.
  eapply Forall2_impl; [exact Hparameters|].
  intros param spec Hparam. simpl in Hparam.
  destruct (convert_param_rule env _ _ Hparam) as (d & -> & _ & Hrule).
  by exists d.
Qed.

(** The listing operation of [Cases.store] has two parameters. *)
Lemma parameters_translated_witness :
  ∃ specs,
    at_keys (output Cases.store)
      [HStr "paths"; HStr "/pet"; HStr "get"; HStr "parameters"]
      = Some (VList specs) ∧
    length specs = 2%nat.
Proof.
  destruct (parameters_translated (Concrete.env Cases.store) origin
              (input Cases.store) (output Cases.store) "/pet" "get" _
              ltac:(by_run) ltac:(by_run) ltac:(by_run) ltac:(by_run))
    as (parsed & entries & tag & url_template & od & params & specs & _ & _
        & _ & _ & Hpv & _).
  vm_compute in Hpv. injection Hpv as <-.
  eexists. split; [by_run | reflexivity].
Defined.

(** X8.  The [responses] mapping of an operation object of the output
    holds, under each key, the translation of the last response message of
    the source operation whose code is written that way: of two messages
    with one code, the later one stays. *)
Theorem responses_last_code (env : Env) (url : string)
    (input out : value) (p m : hkey) (rv : value) :
  endswith url "api-docs" = true →
  http_get env url = Some input →
  convert_swagger_12_to_20 env url = Ok out →
  at_keys out [HStr "paths"; p; m; HStr "responses"] = Some rv →
  ∃ parsed entries tag url_template od resps responses,
    urlparse env url = Ok parsed ∧
    api_entries_of input = Ok entries ∧
    source_operation env (base_url_of parsed) entries tag url_template
      (VDict od) ∧
    py_iter (Dict.get_default od "responseMessages" (VList [])) = Ok resps ∧
    rv = VDict responses ∧
    ∀ code, Dict.get responses code = last_response env resps code.
Proof.
  intros Hsuffix Hget Hrun Hrv.
  change [HStr "paths"; p; m; HStr "responses"]
    with ([HStr "paths"; p; m] ++ [HStr "responses"])%list in Hrv.
  rewrite at_keys_app in Hrv.
  destruct (at_keys out [HStr "paths"; p; m]) as [v|] eqn:Hv; [|done].
  simpl in Hrv.
  destruct (output_operation env _ _ _ _ _ _ Hsuffix Hget Hrun Hv)
    as (parsed & entries & tag & url_template & operation & me & o & cleaned
        & Hparsed & Hentries & Hsrc & Hkey & -> & Hop & Hclean & ->).
  apply convert_operation_inv in Hop
    as (od & method & params & parameters & resps & responses & summary
        & notes & consumes & produces & -> & Hmethod & -> & _ & _ & Hresps
        & Hresponses & _ & _ & _ & _ & ->).
  destruct (cleanup_operation_object tag summary notes parameters responses
              consumes produces) as (cleaned2 & Hclean2 & _ & Hrs).
  rewrite Hclean in Hclean2. injection Hclean2 as <-.
  rewrite Hrs in Hrv.
  assert (rv = VDict responses) as ->.
  { destruct responses; [done|]. simpl in Hrv. by injection Hrv. }
  exists parsed, entries, tag, url_template, od, resps, responses.
  repeat split; try done.
  intros code. rewrite (responses_last env _ _ _ code Hresponses).
  by destruct (last_response env resps code).
Qed.

(** The two response messages of [Cases.store] have the codes [200] and
    ["200"]: the second one stays. *)
Lemma responses_last_code_witness :
  ∃ responses,
    at_keys (output Cases.store)
      [HStr "paths"; HStr "/pet"; HStr "get"; HStr "responses"]
      = Some (VDict responses) ∧
    Dict.keys responses = [HStr "200"] ∧
    Dict.get responses "200" ≫= (λ r, at_keys r [HStr "description"])
      = Some (VStr "second").
Proof.
  destruct (responses_last_code (Concrete.env Cases.store) origin
              (input Cases.store) (output Cases.store) "/pet" "get" _
              ltac:(by_run) ltac:(by_run) ltac:(by_run) ltac:(by_run))
    as (parsed & entries & tag & url_template & od & resps & responses & _ & _
        & _ & _ & Hrv & _).
  vm_compute in Hrv. injection Hrv as <-.
  eexists. split; [by_run | by split].
Defined.

(** ** All or nothing *)

Section all_or_nothing.
Context (env : Env).


End all_or_nothing.

(** X9.  No operation is dropped: in a returned document, every operation
    of every fetched declaration has an entry of [paths] under its URL
    template and its lower-cased method. *)
Theorem every_operation_stored (env : Env) (url : string)
    (input out : value) :
  endswith url "api-docs" = true →
  http_get env url = Some input →
  convert_swagger_12_to_20 env url = Ok out →
  ∃ parsed entries,
    urlparse env url = Ok parsed ∧
    api_entries_of input = Ok entries ∧
    ∀ tag url_template operation,
      source_operation env (base_url_of parsed) entries tag url_template
        operation →
      ∃ k method,
        hashable url_template = Ok k ∧
        getitem operation "method" = Ok (VStr method) ∧
        is_Some (at_keys out [HStr "paths"; k; HStr (str_lower env method)]).
Proof.
  intros Hsuffix Hget Hrun.
  destruct (convert_paths env _ _ _ Hsuffix Hget Hrun)
    as (parsed & entries & cs & Hparsed & Hentries & Hcs & Hpaths).
  exists parsed, entries. repeat split; try done.
  intros tag url_template operation Hsrc.
  destruct (run_writes_image env _ _ _ _ _ _ Hcs Hsrc)
    as ([[k me] o] & Hin & Hc).
  apply contribution_Ok in Hc as [Hop Hkey].
  pose proof Hop as Hop2.
  apply convert_operation_inv in Hop2
    as (od & method & ? & ? & ? & ? & ? & ? & ? & ? & -> & Hmethod & -> & _).
  exists k, method. split; [done|]. split.
  { unfold getitem, subscript. simpl. by rewrite Hmethod. }
  specialize (Hpaths k (HStr (str_lower env method))).
  destruct (last_write_is_Some _ _ _ _ Hin) as [later Hlater].
  rewrite Hlater in Hpaths. destruct Hpaths as (cleaned & _ & ->).
  by eexists.
Qed.

(** The second operation of the declaration of [Cases.store]. *)
Lemma store_post_operation :
  source_operation (Concrete.env Cases.store) "http://host/v1/api-docs/"
    [reference "/pet-controller" "Pets"] "pet" (VStr "/pet")
    (operation "POST" "Add a pet" []).
Proof.
  eexists _, _, _, _, _.
  split; [left|]. split; [by_run|]. split; [by_run|]. split; [by_run|].
  split; [left|]. split; [by_run|]. split; [by_run|]. right. left.
Defined.

(** The operation of [Cases.store] that adds a pet is in the output. *)
Lemma every_operation_stored_witness :
  is_Some (at_keys (output Cases.store)
             [HStr "paths"; HStr "/pet"; HStr "post"]).
Proof.
  destruct (every_operation_stored (Concrete.env Cases.store) origin
              (input Cases.store) (output Cases.store)
              ltac:(by_run) ltac:(by_run) ltac:(by_run))
    as (parsed & entries & Hparsed & Hentries & Hall).
  vm_compute in Hparsed. injection Hparsed as <-.
  vm_compute in Hentries. injection Hentries as <-.
  destruct (Hall _ _ _ store_post_operation)
    as (k & method & Hkey & Hmethod & Hstored).
  vm_compute in Hkey. injection Hkey as <-.
  vm_compute in Hmethod. injection Hmethod as <-.
  exact Hstored.
Defined.



(** ** Models and their properties *)

Lemma keys_set {A : Type} (d : list (hkey * A)) (k : hkey) (v : A) :
  Dict.keys (Dict.set d k v) =
  if Dict.mem d k then Dict.keys d else (Dict.keys d ++ [k])%list.
Proof.
  unfold Dict.keys, Dict.mem. induction d as [|[k0 v0] d IH]; [done|].
  csimpl. case_decide as Hk; csimpl.
  - done.
  - rewrite IH. by destruct (bool_decide (is_Some (Dict.get d k))).
Qed.

Lemma mem_false_keys {A : Type} (d : list (hkey * A)) (k : hkey) :
  k ∉ Dict.keys d → Dict.mem d k = false.
Proof.
  intros Hk. apply mem_false. unfold Dict.keys in Hk.
  induction d as [|[k0 v0] d IH]; [done|]. csimpl in Hk.
  apply not_elem_of_cons in Hk as [Hne Hk]. simpl.
  rewrite decide_False by done. by apply IH.
Qed.

Section more_models.
Context (env : Env).

Lemma convert_property_rule prop_def spec required :
  convert_property env prop_def = Ok (spec, required) →
  ∃ d, prop_def = VDict d ∧ property_rule env d (VDict spec).
Proof.
  unfold convert_property. intros H. inv_ok.
  eexists. split; [done|]. unfold property_rule, Dict.get_default in *.
  destruct (truthy _) eqn:Hformat.
  - inv_ok. rew_ok. split; [by eauto|]. by split.
  - inv_ok. split; [by eexists|]. by split.
Qed.

Lemma properties_other props properties0 required0 properties required name :
  for_each (add_property env) props (properties0, required0)
    = Ok (properties, required) →
  name ∉ Dict.keys props →
  Dict.get properties name = Dict.get properties0 name.
Proof.
  unfold Dict.keys. revert properties0 required0.
  induction props as [|[k v] props IH]; intros properties0 required0 H Hname;
    simpl in H.
  - by inv_ok.
  - csimpl in Hname. apply not_elem_of_cons in Hname as [Hne Hname].
    apply bind_Ok in H as ([properties1 required1] & Hstep & H).
    rewrite (IH _ _ H Hname). unfold add_property in Hstep.
    apply bind_Ok in Hstep as ([spec b] & _ & [= <- _]).
    by apply get_set_ne.
Qed.

(** Under unique property names, each property schema of a definition is
    the translation of the property of that name. *)
Lemma properties_get props properties0 required0 properties required name pd :
  for_each (add_property env) props (properties0, required0)
    = Ok (properties, required) →
  dict_wf props →
  Dict.get props name = Some pd →
  ∃ spec b,
    convert_property env pd = Ok (spec, b) ∧
    Dict.get properties name = Some (VDict spec).
Proof.
  unfold dict_wf, Dict.keys. revert properties0 required0.
  induction props as [|[k v] props IH]; intros properties0 required0 H Hwf Hget;
    simpl in H, Hget; [done|].
  csimpl in Hwf. apply NoDup_cons in Hwf as [Hk Hwf].
  apply bind_Ok in H as ([properties1 required1] & Hstep & H).
  unfold add_property in Hstep.
  apply bind_Ok in Hstep as ([spec b] & Hprop & [= <- _]).
  case_decide as Hname.
  - injection Hget as <-. subst k. exists spec, b. split; [done|].
    rewrite (properties_other _ _ _ _ _ _ H Hk). apply get_set_eq.
  - by apply (IH _ _ H).
Qed.

Lemma convert_model_inv md definition :
  convert_model env (VDict md) = Ok definition →
  ∃ props properties required,
    Dict.get md "properties" = Some (VDict props) ∧
    for_each (add_property env) props ([], []) = Ok (properties, required) ∧
    definition =
      VDict
        [ (HStr "type", VStr "object");
          (HStr "properties", VDict properties);
          (HStr "required",
           if truthy (VList required) then VList required else VNone);
          (HStr "description",
           Dict.get_default md "description" (VStr "")) ].
Proof.
  unfold convert_model. simpl. intros H. inv_ok.
  match goal with H : for_each _ _ _ = Ok ?x |- _ => destruct x end.
  simpl in *. inv_ok. by eexists _, _, _.
Qed.

(** One definition for each model, in source order. *)
Lemma definitions_keys models definitions0 definitions :
  for_each (add_definition env) models definitions0 = Ok definitions →
  NoDup (Dict.keys definitions0 ++ Dict.keys models) →
  Dict.keys definitions = (Dict.keys definitions0 ++ Dict.keys models)%list.
Proof.
  revert definitions0.
  induction models as [|[k v] models IH]; intros definitions0 H Hwf;
    simpl in H.
  - inv_ok. by rewrite app_nil_r.
  - change (Dict.keys ((k, v) :: models)) with (k :: Dict.keys models) in *.
    unfold add_definition in H at 1. inv_ok.
    assert (k ∉ Dict.keys definitions0) as Hk.
    { apply NoDup_app in Hwf as (_ & Hdisj & _). intros Hin.
      apply (Hdisj k Hin). left. }
    rewrite (IH _ H).
    + rewrite keys_set, (mem_false_keys _ _ Hk). by rewrite <- app_assoc.
    + rewrite keys_set, (mem_false_keys _ _ Hk). by rewrite <- app_assoc.
Qed.
End more_models.

(** X11.  With unique model and property names, the definition of a model
    has the type ["object"], the model's [description] or the empty string,
    and, for each property of the model, a schema with the lower-cased
    [type], the [description] or the empty string, and the [format] when
    the property has a truthy one. *)
Theorem model_translated (env : Env) (url : string) (input out : value)
    (models : dict) (name : hkey) (md props : dict) :
  endswith url "api-docs" = true →
  http_get env url = Some input →
  convert_swagger_12_to_20 env url = Ok out →
  at_keys input [HStr "models"] = Some (VDict models) →
  dict_wf models →
  Dict.get models name = Some (VDict md) →
  Dict.get md "properties" = Some (VDict props) →
  dict_wf props →
  at_keys out [HStr "definitions"; name; HStr "type"] = Some (VStr "object") ∧
  at_keys out [HStr "definitions"; name; HStr "description"] =
    Some (default (VStr "") (Dict.get md "description")) ∧
  ∀ prop_name prop_def,
    Dict.get props prop_name = Some prop_def →
    ∃ d spec,
      prop_def = VDict d ∧
      at_keys out [HStr "definitions"; name; HStr "properties"; prop_name]
        = Some spec ∧
      property_rule env d spec.
Proof.
  intros Hsuffix Hget Hrun Hmodels Hwf Hname Hprops Hwfp.
  destruct (convert_Ok env _ _ _ Hsuffix Hget Hrun)
    as (parsed & root & info & entries & st & models2 & definitions & ps
        & Hparsed & -> & Hinfo & Hentries & Hloop & Hmodels2 & Hdefs
        & Hclean & ->).
  simpl in Hmodels.
  destruct (Dict.get root "models") as [mv|] eqn:Hmv; [|done].
  simpl in Hmodels. injection Hmodels as ->.
  unfold Dict.get_default in Hmodels2. rewrite Hmv in Hmodels2.
  simpl in Hmodels2. injection Hmodels2 as <-.
  destruct (definitions_get env _ _ _ _ _ Hdefs Hwf Hname)
    as (definition & Hdef & Hget_def).
  apply convert_model_inv in Hdef
    as (props2 & properties & required & Hprops2 & Hloop_props & ->).
  assert (props2 = props) as -> by congruence.
  assert (∀ ks, at_keys
                  (VDict
                     [ (HStr "swagger", VStr "2.0");
                       (HStr "info",
                        VDict (Dict.set info "version"
                                 (Dict.get_default root "apiVersion"
                                    (VStr "1.0"))));
                       (HStr "host", VStr (url_netloc parsed));
                       (HStr "basePath",
                        VStr (rstrip_slash (url_path parsed)));
                       (HStr "schemes", VList [VStr (url_scheme parsed)]);
                       (HStr "paths", paths_value ps);
                       (HStr "definitions", VDict definitions);
                       (HStr "tags", VList (tags st)) ])
                  (HStr "definitions" :: name :: ks)
                = at_keys
                    (VDict
                       [ (HStr "type", VStr "object");
                         (HStr "properties", VDict properties);
                         (HStr "required",
                          if truthy (VList required) then VList required
                          else VNone);
                         (HStr "description",
                          Dict.get_default md "description" (VStr "")) ])
                    ks) as Hat.
  { intros ks.
    change (at_keys _ (HStr "definitions" :: name :: ks))
      with (Dict.get definitions name ≫= λ v, at_keys v ks).
    by rewrite Hget_def. }
  split; [by rewrite Hat|]. split; [by rewrite Hat|].
  intros prop_name prop_def Hprop.
  destruct (properties_get env _ _ _ _ _ _ _ Hloop_props Hwfp Hprop)
    as (spec & b & Hspec & Hget_spec).
  destruct (convert_property_rule env _ _ _ Hspec) as (d & -> & Hrule).
  exists d, (VDict spec). split; [done|]. split; [|done].
  rewrite Hat. simpl. by rewrite Hget_spec.
Qed.

(** The model [Pet] of [Cases.catalogue]: its property [id] has a format,
    its property [name] an empty one. *)
Lemma model_translated_witness :
  at_keys (output Cases.catalogue)
    [HStr "definitions"; HStr "Pet"; HStr "description"]
    = Some (VStr "A pet") ∧
  ∃ spec,
    at_keys (output Cases.catalogue)
      [HStr "definitions"; HStr "Pet"; HStr "properties"; HStr "name"]
      = Some spec ∧
    at_keys spec [HStr "type"] = Some (VStr "string") ∧
    at_keys spec [HStr "format"] = None.
Proof.
  destruct (model_translated (Concrete.env Cases.catalogue) origin
              (input Cases.catalogue) (output Cases.catalogue) _ "Pet" _ _
              ltac:(by_run) ltac:(by_run) ltac:(by_run) ltac:(by_run)
              ltac:(by_wf) ltac:(by_run) ltac:(by_run) ltac:(by_wf))
    as (_ & Hdescription & Hprops).
  split; [exact Hdescription|].
  destruct (Hprops (HStr "name") _ ltac:(by_run))
    as (d & spec & Hd & Hspec & ((type & Htype & Hspec_type) & _ & Hformat)).
  injection Hd as <-.
  vm_compute in Htype. injection Htype as <-.
  exists spec. split; [exact Hspec|]. split; [exact Hspec_type|exact Hformat].
Defined.

(** X12.  The [definitions] of a returned document are empty when the
    listing has no [models] key, and otherwise have one entry for each
    model, under the model's name and in source order. *)
Theorem definitions_follow_models (env : Env) (url : string)
    (input out : value) :
  endswith url "api-docs" = true →
  http_get env url = Some input →
  convert_swagger_12_to_20 env url = Ok out →
  (at_keys input [HStr "models"] = None →
   at_keys out [HStr "definitions"] = Some (VDict [])) ∧
  (∀ models,
     at_keys input [HStr "models"] = Some (VDict models) →
     dict_wf models →
     ∃ definitions,
       at_keys out [HStr "definitions"] = Some (VDict definitions) ∧
       Dict.keys definitions = Dict.keys models).
Proof.
  intros Hsuffix Hget Hrun.
  destruct (convert_Ok env _ _ _ Hsuffix Hget Hrun)
    as (parsed & root & info & entries & st & models2 & definitions & ps
        & Hparsed & -> & Hinfo & Hentries & Hloop & Hmodels2 & Hdefs
        & Hclean & ->).
  unfold Dict.get_default in Hmodels2. simpl. split.
  - intros Hnone. destruct (Dict.get root "models"); [done|].
    simpl in Hmodels2. injection Hmodels2 as <-. simpl in Hdefs.
    by injection Hdefs as <-.
  - intros models Hmodels Hwf.
    destruct (Dict.get root "models") as [mv|]; [|done].
    simpl in Hmodels, Hmodels2. injection Hmodels as ->.
    injection Hmodels2 as <-. exists definitions. split; [done|].
    by apply (definitions_keys env _ _ _ Hdefs).
Qed.

(** [Cases.catalogue] has the models [Pet] and [Tag]; the listing of
    scenario A has none. *)
Lemma definitions_follow_models_witness :
  (∃ definitions,
     at_keys (output Cases.catalogue) [HStr "definitions"]
       = Some (VDict definitions) ∧
     Dict.keys definitions = [HStr "Pet"; HStr "Tag"]) ∧
  at_keys (output pets) [HStr "definitions"] = Some (VDict []).
Proof.
  split.
  - destruct (definitions_follow_models (Concrete.env Cases.catalogue) origin
                (input Cases.catalogue) (output Cases.catalogue)
                ltac:(by_run) ltac:(by_run) ltac:(by_run)) as [_ Hsome].
    exact (Hsome _ ltac:(by_run) ltac:(by_wf)).
  - destruct (definitions_follow_models (Concrete.env pets) origin
                (input pets) (output pets)
                ltac:(by_run) ltac:(by_run) ltac:(by_run)) as [Hnone _].
    exact (Hnone ltac:(by_run)).
Defined.

(** ** Tags and the operations that name them *)

(** X13.  The tag names of a returned document are pairwise distinct, and
    the tag every operation object carries is one of them. *)
Theorem operation_tags_declared (env : Env) (url : string)
    (input out : value) :
  endswith url "api-docs" = true →
  http_get env url = Some input →
  convert_swagger_12_to_20 env url = Ok out →
  ∃ tags names,
    at_keys out [HStr "tags"] = Some (VList tags) ∧
    Forall2 (λ t name, ∃ description, t = tag_entry name description)
      tags names ∧
    NoDup names ∧
    ∀ p m v,
      at_keys out [HStr "paths"; p; m] = Some v →
      ∃ tag,
        at_keys v [HStr "tags"] = Some (VList [VStr tag]) ∧ tag ∈ names.
Proof.
  intros Hsuffix Hget Hrun.
  destruct (convert_Ok env _ _ _ Hsuffix Hget Hrun)
    as (parsed & root & info & entries & st & models & definitions & ps
        & Hparsed & Hinput & Hinfo & Hentries & Hloop & Hmodels & Hdefs
        & Hclean & Hout).
  destruct (run_tags env _ _ _ _ Hloop) as (refs & new & Hrefs & Htags & Hnew).
  simpl in Htags, Hnew.
  exists (tags st), (first_seen ∅ refs).*1.
  split; [by subst out|]. split; [|split].
  - rewrite Htags. clear -Hnew. induction Hnew as [|t r ts rs Ht _ IH]; csimpl.
    + constructor.
    + constructor; [|done]. destruct Ht as (description & _ & ->).
      by exists description.
  - apply first_seen_names.
  - intros p m v Hv.
    destruct (output_operation env _ _ _ _ _ _ Hsuffix Hget Hrun Hv)
      as (parsed2 & entries2 & tag & url_template & operation & me & o & o'
          & Hparsed2 & Hentries2 & Hsrc & Hkey & -> & Hop & Hcleaned & ->).
    assert (parsed2 = parsed) as -> by congruence.
    assert (entries2 = entries) as ->.
    { assert (api_entries_of input = Ok entries) as Hsame by (by subst input).
      congruence. }
    apply convert_operation_inv in Hop
      as (od & method & params & parameters & resps & responses & summary
          & notes & consumes & produces & -> & _ & _ & _ & _ & _ & _
          & _ & _ & _ & _ & ->).
    apply cleanup_operation_object_fields in Hcleaned as (Hop_tags & _).
    exists tag. split; [simpl; by rewrite Hop_tags|].
    destruct Hsrc as (d & path & _ & _ & _ & Hin & Hpath & -> & _).
    destruct (mapM_Ok_image _ _ _ _ Hrefs Hin) as (r & Hr & Href).
    rewrite (api_reference_dict d path Hpath) in Href. injection Href as <-.
    apply (elem_of_list_to_set (C := gset string)).
    destruct (first_seen_names ∅ refs) as [-> _].
    rewrite difference_empty_L. apply elem_of_list_to_set.
    apply list_elem_of_fmap. by exists (tag_name_of path, d).
Qed.

(** The two operations of [Cases.store] carry the one tag of the
    document. *)
Lemma operation_tags_declared_witness :
  ∃ tags names,
    at_keys (output Cases.store) [HStr "tags"] = Some (VList tags) ∧
    Forall2 (λ t name, ∃ description, t = tag_entry name description)
      tags names ∧
    "pet" ∈ names.
Proof.
  destruct (operation_tags_declared (Concrete.env Cases.store) origin
              (input Cases.store) (output Cases.store)
              ltac:(by_run) ltac:(by_run) ltac:(by_run))
    as (tags & names & Htags & Hnames & _ & Hops).
  destruct (Hops (HStr "/pet") (HStr "post") _ ltac:(by_run))
    as (tag & Htag & Hin).
  vm_compute in Htag. injection Htag as <-.
  by exists tags, names.
Defined.

(** ** What a run asks of the references and their declarations *)

(** X14.  A conversion returns only when every API reference is an object
    with a string [path], and every declaration that was fetched is an
    object whose [apis], when it has one, can be iterated: one declaration
    that is a JSON list, string, number or null, and no document comes
    out. *)
Theorem success_requires_declarations (env : Env) (url : string)
    (input out : value) :
  endswith url "api-docs" = true →
  http_get env url = Some input →
  convert_swagger_12_to_20 env url = Ok out →
  ∃ parsed entries,
    urlparse env url = Ok parsed ∧
    api_entries_of input = Ok entries ∧
    ∀ api_entry,
      api_entry ∈ entries →
      ∃ d path,
        api_entry = VDict d ∧
        Dict.get d "path" = Some (VStr path) ∧
        ∀ body,
          http_get env (base_url_of parsed ++ path) = Some body →
          ∃ details endpoints,
            body = VDict details ∧
            py_iter (Dict.get_default details "apis" (VList []))
              = Ok endpoints.
Proof.
  intros Hsuffix Hget Hrun.
  destruct (convert_Ok env _ _ _ Hsuffix Hget Hrun)
    as (parsed & root & info & entries & st & models & definitions & ps
        & Hparsed & Hinput & Hinfo & Hentries & Hloop & Hmodels & Hdefs
        & Hclean & Hout).
  exists parsed, entries. split; [done|]. split; [by subst input|].
  intros api_entry Hin.
  apply for_each_Ok_each in Hloop.
  rewrite Forall_forall in Hloop.
  destruct (Hloop _ Hin) as (s & s' & Hstep).
  apply process_api_entry_Ok in Hstep
    as (d & path & st1 & cs & -> & Hpath & _ & Hcs & _).
  exists d, path. split; [done|]. split; [done|].
  intros body Hbody.
  unfold entry_writes in Hcs. simpl in Hcs. unfold subscript in Hcs.
  rewrite Hpath in Hcs. simpl in Hcs.
  apply bind_Ok in Hcs as (endpoints & Hendpoints & _).
  unfold fetch_api_details in Hendpoints. rewrite Hbody in Hendpoints.
  unfold declaration_endpoints in Hendpoints.
  apply bind_Ok in Hendpoints as (details & ->%dict_attr_Ok & Hiter).
  by exists details, endpoints.
Qed.

(** The declaration of [Cases.bare] is an object without [apis]. *)
Lemma success_requires_declarations_witness :
  ∃ details,
    Concrete.table_get Cases.bare "http://host/v1/api-docs//pet-controller"
      = Some (VDict details).
Proof.
  destruct (success_requires_declarations (Concrete.env Cases.bare) origin
              (input Cases.bare) (output Cases.bare)
              ltac:(by_run) ltac:(by_run) ltac:(by_run))
    as (parsed & entries & Hparsed & Hentries & Hall).
  vm_compute in Hparsed. injection Hparsed as <-.
  vm_compute in Hentries. injection Hentries as <-.
  destruct (Hall (reference "/pet-controller" "Pets") ltac:(left))
    as (d & path & Hd & Hpath & Hbody).
  injection Hd as <-. vm_compute in Hpath. injection Hpath as <-.
  destruct (Hbody _ ltac:(by_run)) as (details & _ & Hdetails & _).
  exists details. rewrite <- Hdetails. by_run.
Defined.

(** When the declaration of [Cases.listed] is a list, the run raises. *)
Example listed_declaration_raises :
  run Cases.listed = Raise AttributeError.
Proof. by_run. Qed.
